(** * Concentric-ring sky model and pad-position reader: a shallow
      embedding of [generate_ring_sky_model.py] and [cfg_to_kml.py]

    [generate_ring_sky_model.py] builds a component list made of one central
    disk and, for every ring [j] in [range(n_rings)], an outer disk of
    positive flux and an inner disk of negative flux, so that the pair forms
    a flux-normalised annulus.  It then derives the name of the output image
    from the declination string.

    Number model.  The arithmetic of the script is written once, over an
    interface [Arith] of the operations it uses, and read in two ways:

    - [binary64]: Python's [float], that is IEEE 754 double precision with
      rounding to nearest, on Rocq's primitive floats.  This is the script
      as it runs: sums and products round, [a / b] raises
      [ZeroDivisionError] when [b == 0.0], [a ** 2] raises [OverflowError]
      when the square of a finite [a] is not finite, and the conversion of
      the loop index to a float rounds.  The C library's [pow(a, 2.0)] is
      taken to be the correctly rounded product [a * a].
    - [exact]: the same operations on the rationals [Q] without rounding
      (equality is [==]), with the value of the double [math.pi] for pi.
      This is the reading in which the formulas of the script satisfy the
      identities the design relies on.

    The calls into the CASA toolkit ([quanta], [componentlist], [image],
    [exportfits]) are outside the repository: the component list is modelled
    by the list of the arguments handed to [cl.addcomponent], and the text of
    the centre direction produced by [qa.tos (qa.convert _ "rad")] is a
    parameter of the model.  Logging and the pixel image are not modelled;
    of the image only its shape and reference pixel are.

    The second script, [cfg_to_kml.py], reads pad positions from the lines
    of a configuration file.  Its texts are lists of code points; the
    built-in [float] is a parameter; the file is given by the lines it
    yields, the data frame by the list of its rows. *)

From Stdlib Require Import QArith Qabs Qfield Lqa Lia ZArith List String Ascii Bool.
From Stdlib Require Import PrimFloat SpecFloat FloatOps.
Import ListNotations.

Set Warnings "-inexact-float".

Local Open Scope Q_scope.

(** ** Errors *)

(** The exceptions the arithmetic of the ring loop can raise. *)
Inductive exn : Set :=
| ZeroDivisionError
| OverflowError.

Inductive result (A : Type) : Type :=
| Ok (a : A)
| Raise (e : exn).

Arguments Ok {A} a.
Arguments Raise {A} e.

Definition bind {A B : Type} (m : result A) (k : A -> result B) : result B :=
  match m with
  | Ok a => k a
  | Raise e => Raise e
  end.

Notation "x <- m ;; k" := (bind m (fun x => k))
  (at level 61, m at next level, right associativity).

(** ** The arithmetic the script uses *)

Class Arith (F : Type) : Type := {
  fadd : F -> F -> F;        (* [a + b] *)
  fsub : F -> F -> F;        (* [a - b] *)
  fmul : F -> F -> F;        (* [a * b] *)
  fneg : F -> F;             (* [-a] *)
  fdiv : F -> F -> F;        (* [a / b] for a divisor that is not zero *)
  is_zero : F -> bool;       (* [b == 0.0] *)
  fpow2 : F -> result F;     (* [a ** 2] *)
  of_int : Z -> result F;    (* the float of an [int], as in [j * x] *)
  math_pi : F;               (* [math.pi] *)
  two : F                    (* the literal [2.0] *)
}.

(** Python's [a / b] on floats. *)
Definition float_div {F : Type} {A : Arith F} (a b : F) : result F :=
  if is_zero b then Raise ZeroDivisionError else Ok (fdiv a b).

(** *** Python's floats *)

(** [a ** 2]: a NaN stays, an infinity gives [inf], and the square of a
    finite number that overflows raises [OverflowError] (an underflow does
    not). *)
Definition pow2_binary64 (a : float) : result float :=
  if PrimFloat.is_nan a then Ok a
  else if PrimFloat.is_infinity a then Ok infinity
  else
    let r := PrimFloat.mul a a in
    if PrimFloat.is_infinity r then Raise OverflowError else Ok r.

(** The float nearest to an integer (ties to even); [OverflowError] for an
    integer too large for a float. *)
Definition int_binary64 (z : Z) : result float :=
  let f := SF2Prim (binary_normalize prec emax z 0 false) in
  if PrimFloat.is_infinity f then Raise OverflowError else Ok f.

#[export] Instance binary64 : Arith float := {|
  fadd := PrimFloat.add;
  fsub := PrimFloat.sub;
  fmul := PrimFloat.mul;
  fneg := PrimFloat.opp;
  fdiv := PrimFloat.div;
  is_zero := fun b => PrimFloat.eqb b PrimFloat.zero;
  fpow2 := pow2_binary64;
  of_int := int_binary64;
  math_pi := 0x1.921fb54442d18p+1%float;
  two := 2%float
|}.

(** *** Exact arithmetic *)

#[export] Instance exact : Arith Q := {|
  fadd := Qplus;
  fsub := Qminus;
  fmul := Qmult;
  fneg := Qopp;
  fdiv := Qdiv;
  is_zero := fun b => Qeq_bool b 0;
  fpow2 := fun a => Ok (a ^ 2);
  of_int := fun z => Ok (inject_Z z);
  math_pi := 884279719003555 # 281474976710656;
  two := 2
|}.

(** The rational a finite float stands for. *)
Definition to_Q (x : float) : option Q :=
  match Prim2SF x with
  | S754_zero _ => Some 0
  | S754_finite s m e =>
      Some ((if s then -1 else 1) * inject_Z (Z.pos m) * 2 ^ e)
  | S754_infinity _ => None
  | S754_nan => None
  end.

(** [lo <= x < hi] for a finite float [x]. *)
Definition within (lo hi : Q) (x : float) : bool :=
  match to_Q x with
  | Some q => Qle_bool lo q && negb (Qle_bool hi q)
  | None => false
  end.

(** [|x - target| <= tol * |target|] for a finite float [x]. *)
Definition close_to (tol target : Q) (x : float) : bool :=
  match to_Q x with
  | Some q => Qle_bool (Qabs (q - target)) (tol * Qabs target)
  | None => false
  end.

(** [x - y], taken exactly (in lowest terms), for finite floats [x] and
    [y]. *)
Definition exact_difference (x y : float) : option Q :=
  match to_Q x, to_Q y with
  | Some a, Some b => Some (Qred (a - b))
  | _, _ => None
  end.

(** [|(x - y) - target| <= tol * |target|], the difference taken exactly. *)
Definition difference_close_to (tol target : Q) (x y : float) : bool :=
  match exact_difference x y with
  | Some d => Qle_bool (Qabs (d - target)) (tol * Qabs target)
  | None => false
  end.

(** [|(x - y) / z - target| <= tol * |target|], taken exactly. *)
Definition ratio_close_to (tol target : Q) (x y z : float) : bool :=
  match exact_difference x y, to_Q z with
  | Some d, Some w =>
      negb (Qeq_bool w 0)
      && Qle_bool (Qabs (d / w - target)) (tol * Qabs target)
  | _, _ => false
  end.

(** [x < y] for finite floats. *)
Definition below (x y : float) : bool :=
  match to_Q x, to_Q y with
  | Some a, Some b => negb (Qle_bool b a)
  | _, _ => false
  end.

Section Model.

Context {F : Type} {A : Arith F}.

(** ** Configuration *)

(** The attributes of [args] that [main] reads. *)
Record Args : Type := mkArgs {
  ra_center : string;
  dec_center : string;
  freq : string;
  n_rings : Z;
  central_diameter : F;
  ring_thickness : F;
  ring_spacing : F;
  flux : F;
  central_flux : option F;
  ring_flux : option F;
  ring_surface_brightness : option F;
  output_base : string
}.

(** ** Ring geometry and fluxes (the body of the [for j] loop) *)

(** [Rc = float(args.central_diameter) / 2.0]; the divisor is not zero. *)
Definition Rc (args : Args) : F := fdiv (central_diameter args) two.

(** [Rin = Rc + j * (args.ring_thickness + args.ring_spacing)], for the
    float [jf] of [j]. *)
Definition Rin (args : Args) (jf : F) : F :=
  fadd (Rc args) (fmul jf (fadd (ring_thickness args) (ring_spacing args))).

(** [Rout = Rin + args.ring_thickness] *)
Definition Rout (args : Args) (jf : F) : F :=
  fadd (Rin args jf) (ring_thickness args).

(** The values bound in one iteration of the loop. *)
Record Ring : Type := mkRing {
  r_Rin : F;
  r_Rout : F;
  r_Aout : F;
  r_Ain : F;
  r_Aring : F;
  r_I : F;
  r_Fout : F;
  r_Finn : F
}.

(** The right-hand side of
    [ring_flux = args.ring_flux if args.ring_flux is not None else args.flux]. *)
Definition resolved_ring_flux (args : Args) : F :=
  match ring_flux args with
  | Some f => f
  | None => flux args
  end.

(** One iteration up to the two [add_disk] calls: the radii, the areas
    [Aout = math.pi * (Rout**2)], [Ain = math.pi * (Rin**2)] and
    [Aring = Aout - Ain], then the branch on [args.ring_surface_brightness],
    and in the else branch the resolution of [ring_flux] followed by the
    division [ring_flux / Aring].  The Python variable [I] is written [I']
    ([I] is taken in Rocq). *)
Definition ring (args : Args) (j : nat) : result Ring :=
  jf <- of_int (Z.of_nat j) ;;
  let Rin := Rin args jf in
  let Rout := Rout args jf in
  Rout2 <- fpow2 Rout ;;
  let Aout := fmul math_pi Rout2 in
  Rin2 <- fpow2 Rin ;;
  let Ain := fmul math_pi Rin2 in
  let Aring := fsub Aout Ain in
  match ring_surface_brightness args with
  | Some I' =>
      Ok (mkRing Rin Rout Aout Ain Aring I' (fmul I' Aout) (fmul I' Ain))
  | None =>
      let ring_flux := resolved_ring_flux args in
      I' <- float_div ring_flux Aring ;;
      Ok (mkRing Rin Rout Aout Ain Aring I' (fmul I' Aout) (fmul I' Ain))
  end.

(** ** The component list *)

(** A quantity with its unit, as in the text [f"{diameter_arcsec}arcsec"]. *)
Record Quantity : Type := mkQuantity {
  q_value : F;
  q_unit : string
}.

(** The keyword arguments of one [cl.addcomponent] call. *)
Record Component : Type := mkComponent {
  c_dir : string;
  c_flux : F;
  c_fluxunit : string;
  c_freq : string;
  c_shape : string;
  c_majoraxis : Quantity;
  c_minoraxis : Quantity;
  c_positionangle : string
}.

(** [add_disk(cl, center_dir, diameter_arcsec, total_flux_jy, freq)]: the
    component list after the call; [disk] is the component it appends. *)
Definition disk (center_dir : string) (diameter_arcsec total_flux_jy : F)
    (freq : string) : Component :=
  let d := mkQuantity diameter_arcsec "arcsec" in
  mkComponent center_dir total_flux_jy "Jy" freq "Disk" d d "0deg".

Definition add_disk (cl : list Component) (center_dir : string)
    (diameter_arcsec total_flux_jy : F) (freq : string) : list Component :=
  (cl ++ [disk center_dir diameter_arcsec total_flux_jy freq])%list.

(** [range(n)] for an integer [n]: empty when [n <= 0]. *)
Definition range (n : Z) : list nat := seq 0 (Z.to_nat n).

(** The [for j in range(args.n_rings)] loop over the remaining indices
    [js]: each iteration computes the ring, then adds the outer disk with
    diameter [2.0 * Rout] and flux [Fout] and the inner disk with diameter
    [2.0 * Rin] and flux [-Finn].  An exception leaves the loop at once. *)
Fixpoint for_rings (args : Args) (center_dir : string) (js : list nat)
    (cl : list Component) : result (list Component) :=
  match js with
  | [] => Ok cl
  | j :: js' =>
      r <- ring args j ;;
      let cl := add_disk cl center_dir (fmul two (r_Rout r)) (r_Fout r)
                  (freq args) in
      let cl := add_disk cl center_dir (fmul two (r_Rin r)) (fneg (r_Finn r))
                  (freq args) in
      for_rings args center_dir js' cl
  end.

(** ** The output name *)

(** [s.replace(old, new)] for a one-character [old]. *)
Fixpoint replace (old : ascii) (new s : string) : string :=
  match s with
  | EmptyString => EmptyString
  | String c s' =>
      if Ascii.eqb c old then String.append new (replace old new s')
      else String c (replace old new s')
  end.

(** [tag = args.dec_center.replace('-', 'm').replace('+', 'p')
                          .replace('d', '').replace('.', '')] *)
Definition tag (dec_center : string) : string :=
  replace "." "" (replace "d" "" (replace "+" "p" (replace "-" "m" dec_center))).

(** [imagename = f"{args.output_base}_dec{tag}"] *)
Definition imagename (args : Args) : string :=
  String.append (output_base args)
    (String.append "_dec" (tag (dec_center args))).

(** ** [main] *)

(** What [main] has built when it returns: the component list stamped on
    the image, and the name of the image. *)
Record Model : Type := mkModel {
  components : list Component;
  name : string
}.

(** The right-hand side of [central_flux =
    args.central_flux if args.central_flux is not None else args.flux]. *)
Definition resolved_central_flux (args : Args) : F :=
  match central_flux args with
  | Some f => f
  | None => flux args
  end.

(** [qa_tos_rad v] stands for [qa.tos(qa.convert(v, "rad"))]. *)
Variable qa_tos_rad : string -> string.

(** [center_dir = f"J2000 {qa.tos(ra_rad)} {qa.tos(dec_rad)}"] *)
Definition center_dir (args : Args) : string :=
  String.append "J2000 "
    (String.append (qa_tos_rad (ra_center args))
       (String.append " " (qa_tos_rad (dec_center args)))).

(** [main(args)]: the component list starts empty ([cl.done()]), gets the
    central disk, then the disks of the rings. *)
Definition main (args : Args) : result Model :=
  let cl := [] in
  let cl := add_disk cl (center_dir args) (central_diameter args)
              (resolved_central_flux args) (freq args) in
  cl <- for_rings args (center_dir args) (range (n_rings args)) cl ;;
  Ok (mkModel cl (imagename args)).

End Model.

Arguments Args F : clear implicits.
Arguments Ring F : clear implicits.
Arguments Quantity F : clear implicits.
Arguments Component F : clear implicits.
Arguments Model F : clear implicits.

(** ** The values of one iteration in exact arithmetic *)

(** [Rin] in iteration [j]. *)
Definition radius_in (args : Args Q) (j : nat) : Q :=
  Rin args (inject_Z (Z.of_nat j)).

(** [Rout] in iteration [j]. *)
Definition radius_out (args : Args Q) (j : nat) : Q :=
  Rout args (inject_Z (Z.of_nat j)).

(** [Aout = math.pi * (Rout**2)] in iteration [j]. *)
Definition area_out (args : Args Q) (j : nat) : Q :=
  math_pi * radius_out args j ^ 2.

(** [Ain = math.pi * (Rin**2)] in iteration [j]. *)
Definition area_in (args : Args Q) (j : nat) : Q :=
  math_pi * radius_in args j ^ 2.

(** [Aring = Aout - Ain] in iteration [j]. *)
Definition area_ring (args : Args Q) (j : nat) : Q :=
  area_out args j - area_in args j.

(** ** Auxiliary definitions for the statements *)

Section Statements.

Context {F : Type} {A : Arith F}.

(** The two disks one iteration adds for a computed ring. *)
Definition ring_disks (center_dir freq : string) (r : Ring F)
    : list (Component F) :=
  [disk center_dir (fmul two (r_Rout r)) (r_Fout r) freq;
   disk center_dir (fmul two (r_Rin r)) (fneg (r_Finn r)) freq].

(** [computed args j r]: iteration [j] returns the ring [r]. *)
Definition computed (args : Args F) (j : nat) (r : Ring F) : Prop :=
  ring args j = Ok r.

(** The components of the model, field by field: a circular disk of the
    given diameter and flux. *)
Definition circular (center_dir freq : string) (diameter total_flux : F)
    : Component F :=
  {| c_dir := center_dir;
     c_flux := total_flux;
     c_fluxunit := "Jy";
     c_freq := freq;
     c_shape := "Disk";
     c_majoraxis := {| q_value := diameter; q_unit := "arcsec" |};
     c_minoraxis := {| q_value := diameter; q_unit := "arcsec" |};
     c_positionangle := "0deg" |}.

(** [args] with other values for [ring_flux] and [flux]. *)
Definition with_fluxes (args : Args F) (rf : option F) (fl : F) : Args F :=
  mkArgs (ra_center args) (dec_center args) (freq args) (n_rings args)
    (central_diameter args) (ring_thickness args) (ring_spacing args)
    fl (central_flux args) rf (ring_surface_brightness args)
    (output_base args).

End Statements.

(** ** The image grid of [main] *)

(** [shape = list(args.im_shape) + [1, 1]] *)
Definition image_shape (im_shape : list Z) : list Z :=
  (im_shape ++ [1; 1])%list%Z.

(** The argument of [cs.setreferencepixel]:
    [[args.im_shape[0] // 2, args.im_shape[1] // 2, 0, 0]]; [None] stands
    for the [IndexError] of an [im_shape] with fewer than two entries. *)
Definition reference_pixel (im_shape : list Z) : option (list Z) :=
  match nth_error im_shape 0, nth_error im_shape 1 with
  | Some w, Some h => Some [w / 2; h / 2; 0; 0]%Z
  | _, _ => None
  end.

(** ** [cfg_to_kml.py]: reading pad positions

    A Python [str] is a list of code points here, so that the whitespace of
    [str.strip] and of the pattern [\s] is Python's own. *)

Definition pystr : Type := list N.

(** A Rocq string literal as a [str] (one code point per character). *)
Fixpoint pys (s : string) : pystr :=
  match s with
  | EmptyString => []
  | String c s' => N_of_ascii c :: pys s'
  end.

(** [str.isspace] on one code point; it is also what [\s] matches. *)
Definition isspace (c : N) : bool :=
  ((9 <=? c) && (c <=? 13) || (28 <=? c) && (c <=? 32)
   || (c =? 133) || (c =? 160) || (c =? 5760)
   || (8192 <=? c) && (c <=? 8202)
   || (c =? 8232) || (c =? 8233) || (c =? 8239) || (c =? 8287)
   || (c =? 12288))%N.

Fixpoint lstrip (s : pystr) : pystr :=
  match s with
  | [] => []
  | c :: s' => if isspace c then lstrip s' else s
  end.

Definition rstrip (s : pystr) : pystr := rev (lstrip (rev s)).

(** [L.strip()] *)
Definition strip (s : pystr) : pystr := rstrip (lstrip s).

(** [L.startswith('#')] *)
Definition startswith_hash (s : pystr) : bool :=
  match s with
  | c :: _ => (c =? 35)%N
  | [] => false
  end.

(** The pieces of [s] between the maximal runs of whitespace; [in_run]
    tells that the previous character belonged to such a run. *)
Fixpoint split_ws (in_run : bool) (s : pystr) : list pystr :=
  match s with
  | [] => [[]]
  | c :: s' =>
      if isspace c then
        if in_run then split_ws true s' else [] :: split_ws true s'
      else
        match split_ws false s' with
        | p :: ps => (c :: p) :: ps
        | [] => [[c]]
        end
  end.

(** [re.split(r"\s+", s)] *)
Definition re_split (s : pystr) : list pystr := split_ws false s.

(** The exception [float] raises on a text that is not a number. *)
Inductive cfg_exn : Type :=
| ValueError (text : pystr).

Inductive cfg_result (A : Type) : Type :=
| Got (a : A)
| Raised (e : cfg_exn).

Arguments Got {A} a.
Arguments Raised {A} e.

Section Cfg.

(** Python's floats and the built-in [float(text)], [None] when it raises
    [ValueError]. *)
Variable float : Type.
Variable py_float : pystr -> option float.

(** One entry of [rows]. *)
Record Row : Type := mkRow {
  row_name : pystr;
  row_x : float;
  row_y : float
}.

(** [{'name': name, 'x': float(x), 'y': float(y)}]: [float(x)] is evaluated
    before [float(y)]. *)
Definition make_row (name x y : pystr) : cfg_result Row :=
  match py_float x with
  | None => Raised (ValueError x)
  | Some fx =>
      match py_float y with
      | None => Raised (ValueError y)
      | Some fy => Got (mkRow name fx fy)
      end
  end.

(** The body of the [for L in fh] loop: the row it appends, or [None] when
    it reaches [continue]. *)
Definition line_row (L : pystr) : cfg_result (option Row) :=
  let L := strip L in
  match L with
  | [] => Got None
  | _ :: _ =>
      if startswith_hash L then Got None
      else
        match re_split L with
        | [x; y; z; diam; name] =>
            match make_row name x y with
            | Got r => Got (Some r)
            | Raised e => Raised e
            end
        | [name; x; y; z] =>
            match make_row name x y with
            | Got r => Got (Some r)
            | Raised e => Raised e
            end
        | _ => Got None
        end
  end.

(** The loop over the lines of the file, with the list [rows] it extends. *)
Fixpoint for_lines (lines : list pystr) (rows : list Row)
    : cfg_result (list Row) :=
  match lines with
  | [] => Got rows
  | L :: lines' =>
      match line_row L with
      | Raised e => Raised e
      | Got None => for_lines lines' rows
      | Got (Some r) => for_lines lines' (rows ++ [r])%list
      end
  end.

(** [parse_cfg], on the lines the file yields. *)
Definition parse_cfg (lines : list pystr) : cfg_result (list Row) :=
  for_lines lines [].

End Cfg.

Arguments mkRow {float} _ _ _.
Arguments row_name {float} _.
Arguments row_x {float} _.
Arguments row_y {float} _.

(** *** Vocabulary for the statements about lines *)

Definition no_space (s : pystr) : bool :=
  forallb (fun c => negb (isspace c)) s.

Definition all_space (s : pystr) : bool := forallb isspace s.

(** A field: a non-empty text without whitespace. *)
Definition is_field (s : pystr) : bool :=
  match s with
  | [] => false
  | _ :: _ => no_space s
  end.

(** A separator: a non-empty run of whitespace. *)
Definition is_sep (s : pystr) : bool :=
  match s with
  | [] => false
  | _ :: _ => all_space s
  end.

(** The text made of the field [f] followed by the separators and fields
    of [rest]. *)
Fixpoint join_fields (f : pystr) (rest : list (pystr * pystr)) : pystr :=
  match rest with
  | [] => f
  | (w, g) :: rest' => (f ++ w ++ join_fields g rest')%list
  end.

Definition well_formed (f : pystr) (rest : list (pystr * pystr)) : Prop :=
  is_field f = true /\
  Forall (fun wg => is_sep (fst wg) = true /\ is_field (snd wg) = true) rest.

(** The last character of [s], if any, is not whitespace. *)
Fixpoint ends_nonspace (s : pystr) : bool :=
  match s with
  | [] => true
  | c :: s' =>
      match s' with
      | [] => negb (isspace c)
      | _ :: _ => ends_nonspace s'
      end
  end.

(** A line the loop skips at its first test: blank, or a comment. *)
Definition ignored (L : pystr) : bool :=
  match strip L with
  | [] => true
  | c :: _ => (c =? 35)%N
  end.

(** A stand-in for [float] on which examples can run: unsigned decimal
    integers, every other text being refused. *)
Fixpoint digits_value (acc : N) (s : pystr) : option N :=
  match s with
  | [] => Some acc
  | c :: s' =>
      if ((48 <=? c) && (c <=? 57))%N
      then digits_value (10 * acc + (c - 48))%N s'
      else None
  end.

Definition digits_float (s : pystr) : option N :=
  match s with
  | [] => None
  | _ :: _ => digits_value 0%N s
  end.

(** [c in s] for a character [c]. *)
Fixpoint contains (c : ascii) (s : string) : bool :=
  match s with
  | EmptyString => false
  | String a s' => Ascii.eqb a c || contains c s'
  end.

(** The substitution in the words of the naming convention: every character
    on its own, ['-'] to ["m"], ['+'] to ["p"], ['d'] and ['.'] dropped. *)
Definition tag_token (c : ascii) : string :=
  if Ascii.eqb c "-" then "m"
  else if Ascii.eqb c "+" then "p"
  else if Ascii.eqb c "d" then ""
  else if Ascii.eqb c "." then ""
  else String c "".

Fixpoint tag_by_char (s : string) : string :=
  match s with
  | EmptyString => EmptyString
  | String c s' => String.append (tag_token c) (tag_by_char s')
  end.

(** ** Configurations used as concrete inputs *)

(** A configuration of floats with the centre, frequency and name of the
    command-line defaults. *)
Definition config64 (n : Z) (cd t s fl : float) (cf rf sb : option float)
    : Args float :=
  mkArgs "12h00m00.00s" "-23d00m00.00" "343.5GHz" n cd t s fl cf rf sb
    "ringModel".

(** The same in exact arithmetic. *)
Definition config (n : Z) (cd t s fl : Q) (cf rf sb : option Q) : Args Q :=
  mkArgs "12h00m00.00s" "-23d00m00.00" "343.5GHz" n cd t s fl cf rf sb
    "ringModel".

(** The command-line defaults of the script. *)
Definition default64 : Args float :=
  config64 3 0.0045 0.0045 0.009 0.00027 None None None.

Definition default_args : Args Q :=
  config 3 (45 # 10000) (45 # 10000) (90 # 10000) (27 # 100000)
    None None None.

(** The end-to-end scenario: one ring, ring flux 2.7e-4 Jy. *)
Definition scenario64 : Args float :=
  config64 1 0.0045 0.0045 0.009 0.00027 None (Some 0.00027%float) None.

Definition scenario_args : Args Q :=
  config 1 (45 # 10000) (45 # 10000) (90 # 10000) (27 # 100000)
    None (Some (27 # 100000)) None.

(** Default geometry, surface brightness 1 Jy/arcsec^2 (and a ring flux
    that is also set). *)
Definition brightness64 : Args float :=
  config64 3 0.0045 0.0045 0.009 0.00027
    None (Some 0.005%float) (Some 1%float).

Definition brightness_args : Args Q :=
  config 3 (45 # 10000) (45 # 10000) (90 # 10000) (27 # 100000)
    None (Some (5 # 1000)) (Some 1).

(** Default geometry, surface brightness 3 Jy/arcsec^2. *)
Definition bright64 : Args float :=
  config64 3 0.0045 0.0045 0.009 0.00027 None None (Some 3%float).

(** Default geometry with [flux = 2.7e-4] and [ring_flux = 5e-3]. *)
Definition override64 : Args float :=
  config64 3 0.0045 0.0045 0.009 0.00027 None (Some 0.005%float) None.

Definition override_args : Args Q :=
  config 3 (45 # 10000) (45 # 10000) (90 # 10000) (27 # 100000)
    None (Some (5 # 1000)) None.

(** Zero thickness in surface-brightness mode. *)
Definition flat_brightness64 : Args float :=
  config64 1 0.0045 0 0.009 0.00027 None None (Some 1%float).

Definition flat_brightness_args : Args Q :=
  config 1 (45 # 10000) 0 (90 # 10000) (27 # 100000) None None (Some 1).

(** Zero thickness in total-flux mode. *)
Definition flat_flux64 : Args float :=
  config64 1 0.0045 0 0.009 0.00027 None None None.

Definition flat_flux_args : Args Q :=
  config 1 (45 # 10000) 0 (90 # 10000) (27 # 100000) None None None.

(** Zero thickness in total-flux mode with a central diameter of 2e154:
    [math.pi * Rin**2] is beyond the largest float. *)
Definition flat_huge64 : Args float :=
  config64 1 2e154 0 0.009 0.00027 None None None.

(** Negative thickness in total-flux mode: the annulus area is negative. *)
Definition negative_area64 : Args float :=
  config64 1 0.0045 (-0.001) 0.009 0.00027 None None None.

Definition negative_area_args : Args Q :=
  config 1 (45 # 10000) (- (1 # 1000)) (90 # 10000) (27 # 100000)
    None None None.

(** Zero thickness in total-flux mode, and no ring asked for. *)
Definition no_ring_args : Args Q :=
  config 0 (45 # 10000) 0 (90 # 10000) (27 # 100000) None None None.

(** A ring of thickness 1e-9 around a central disk of diameter 1. *)
Definition thin64 : Args float :=
  config64 1 1 1e-9 0.009 0.00027 None None None.

(** A ring of thickness 1e-16 around a central disk of diameter 1, with
    [ring_flux = 5e-3]; the same in surface-brightness mode with
    brightness 0.3. *)
Definition sliver64 : Args float :=
  config64 1 1 1e-16 0.009 0.00027 None (Some 0.005%float) None.

Definition sliver_brightness64 : Args float :=
  config64 1 1 1e-16 0.009 0.00027 None None (Some 0.3%float).

(** Default geometry with a thickness of 1e-20. *)
Definition tiny64 : Args float :=
  config64 3 0.0045 1e-20 0.009 0.00027 None None None.

(** Default geometry without spacing. *)
Definition contiguous64 : Args float :=
  config64 4 0.0045 0.0045 0 0.00027 None None None.

(** A thickness of 1e-11 without spacing. *)
Definition hairline64 : Args float :=
  config64 5 0.0045 1e-11 0 0.00027 None None None.

(** ** Exact arithmetic: the ring geometry *)

(** The operations of [exact] are those of [Q]. *)
Ltac exact_arith :=
  unfold area_ring, area_out, area_in, radius_out, radius_in, Rout, Rin, Rc
    in *;
  cbn [fadd fsub fmul fneg fdiv is_zero fpow2 of_int two exact] in *.

(** The same, keeping [Rin] folded. *)
Ltac exact_areas :=
  unfold area_ring, area_out, area_in, radius_out, radius_in, Rout in *;
  cbn [fadd fsub fmul fneg fdiv exact] in *.

Lemma math_pi_pos : 0 < math_pi.
Proof. reflexivity. Qed.

Lemma float_div_ok (a b : Q) : ~ b == 0 -> float_div a b = Ok (a / b).
Proof.
  intros Hb. unfold float_div. cbn [is_zero fdiv exact].
  destruct (Qeq_bool b 0) eqn:E; [|reflexivity].
  apply Qeq_bool_iff in E. contradiction.
Qed.

Lemma float_div_zero (a b : Q) :
  b == 0 -> float_div a b = Raise ZeroDivisionError.
Proof.
  intros Hb. unfold float_div. cbn [is_zero fdiv exact].
  apply Qeq_bool_iff in Hb. now rewrite Hb.
Qed.

(** The annulus area is [pi * thickness * (2 Rin + thickness)]. *)
Lemma area_ring_factor (args : Args Q) (j : nat) :
  area_ring args j ==
  math_pi * (ring_thickness args * (2 * radius_in args j + ring_thickness args)).
Proof. exact_areas. ring. Qed.

Lemma inject_nat_nonneg (j : nat) : 0 <= inject_Z (Z.of_nat j).
Proof.
  change 0 with (inject_Z 0). rewrite <- Zle_Qle. lia.
Qed.

Lemma radius_in_nonneg (args : Args Q) (j : nat) :
  0 <= central_diameter args ->
  0 <= ring_thickness args + ring_spacing args ->
  0 <= radius_in args j.
Proof.
  intros Hc Hts. exact_arith.
  pose proof (inject_nat_nonneg j) as Hj.
  assert (0 <= inject_Z (Z.of_nat j) * (ring_thickness args + ring_spacing args))
    by (apply Qmult_le_0_compat; assumption).
  assert (0 <= central_diameter args / 2) by (apply Qle_shift_div_l; lra).
  lra.
Qed.

Lemma area_ring_pos (args : Args Q) (j : nat) :
  0 < ring_thickness args -> 0 <= ring_spacing args ->
  0 <= central_diameter args ->
  0 < area_ring args j.
Proof.
  intros Ht Hs Hc. rewrite area_ring_factor.
  assert (0 <= radius_in args j) by (apply radius_in_nonneg; lra).
  pose proof math_pi_pos.
  apply Qmult_lt_0_compat; [assumption|].
  apply Qmult_lt_0_compat; lra.
Qed.

Lemma radius_in_succ (args : Args Q) (j : nat) :
  radius_in args (S j) ==
  radius_in args j + (ring_thickness args + ring_spacing args).
Proof.
  exact_arith. rewrite Nat2Z.inj_succ. unfold Z.succ.
  rewrite inject_Z_plus. ring.
Qed.

(** ** Exact arithmetic: the two branches of one iteration *)

Lemma ring_surface_brightness_mode (args : Args Q) (j : nat) (I' : Q) :
  ring_surface_brightness args = Some I' ->
  ring args j =
  Ok (mkRing (radius_in args j) (radius_out args j) (area_out args j)
        (area_in args j) (area_ring args j) I'
        (I' * area_out args j) (I' * area_in args j)).
Proof. intros H. unfold ring. cbn [of_int fpow2 exact bind]. now rewrite H. Qed.

Lemma ring_total_flux_mode (args : Args Q) (j : nat) :
  ring_surface_brightness args = None ->
  ~ area_ring args j == 0 ->
  ring args j =
  Ok (mkRing (radius_in args j) (radius_out args j) (area_out args j)
        (area_in args j) (area_ring args j)
        (resolved_ring_flux args / area_ring args j)
        (resolved_ring_flux args / area_ring args j * area_out args j)
        (resolved_ring_flux args / area_ring args j * area_in args j)).
Proof.
  intros H HA. unfold ring. cbn [of_int fpow2 exact bind]. rewrite H.
  cbv zeta.
  change (fsub (fmul math_pi (Rout args (inject_Z (Z.of_nat j)) ^ 2))
               (fmul math_pi (Rin args (inject_Z (Z.of_nat j)) ^ 2)))
    with (area_ring args j).
  now rewrite (float_div_ok _ _ HA).
Qed.

Lemma ring_total_flux_raise (args : Args Q) (j : nat) :
  ring_surface_brightness args = None ->
  area_ring args j == 0 ->
  ring args j = Raise ZeroDivisionError.
Proof.
  intros H HA. unfold ring. cbn [of_int fpow2 exact bind]. rewrite H.
  cbv zeta.
  change (fsub (fmul math_pi (Rout args (inject_Z (Z.of_nat j)) ^ 2))
               (fmul math_pi (Rin args (inject_Z (Z.of_nat j)) ^ 2)))
    with (area_ring args j).
  now rewrite (float_div_zero _ _ HA).
Qed.

(** An iteration returns unless it is in total-flux mode on a ring of
    area zero. *)
Lemma ring_returns (args : Args Q) (j : nat) :
  (ring_surface_brightness args = None -> ~ area_ring args j == 0) ->
  exists r, ring args j = Ok r.
Proof.
  intros H. destruct (ring_surface_brightness args) as [I'|] eqn:E.
  - eexists. apply ring_surface_brightness_mode. exact E.
  - eexists. apply ring_total_flux_mode; auto.
Qed.


(** The net flux of a ring computed in total-flux mode. *)
Lemma net_flux_total (F A Ao Ai : Q) :
  ~ A == 0 -> A == Ao - Ai -> F / A * Ao - F / A * Ai == F.
Proof.
  intros HA HE.
  setoid_replace (F / A * Ao - F / A * Ai) with (F / A * A)
    by (rewrite HE; ring).
  field. exact HA.
Qed.

(** ** The loop, in any arithmetic *)

Section Loop.

Context {F : Type} {A : Arith F}.

(** What a computed ring holds: the values of lines 61 to 80. *)
Lemma ring_values (args : Args F) (j : nat) (r : Ring F) :
  ring args j = Ok r ->
  exists jf Rout2 Rin2,
    of_int (Z.of_nat j) = Ok jf /\
    r_Rin r = Rin args jf /\
    r_Rout r = fadd (r_Rin r) (ring_thickness args) /\
    fpow2 (r_Rout r) = Ok Rout2 /\ r_Aout r = fmul math_pi Rout2 /\
    fpow2 (r_Rin r) = Ok Rin2 /\ r_Ain r = fmul math_pi Rin2 /\
    r_Aring r = fsub (r_Aout r) (r_Ain r) /\
    r_Fout r = fmul (r_I r) (r_Aout r) /\
    r_Finn r = fmul (r_I r) (r_Ain r) /\
    match ring_surface_brightness args with
    | Some I' => r_I r = I'
    | None => float_div (resolved_ring_flux args) (r_Aring r) = Ok (r_I r)
    end.
Proof.
  unfold ring.
  destruct (of_int (Z.of_nat j)) as [jf|e] eqn:Ej; [|discriminate].
  cbn [bind]. cbv zeta.
  destruct (fpow2 (Rout args jf)) as [Rout2|e] eqn:Eo; [|discriminate].
  cbn [bind].
  destruct (fpow2 (Rin args jf)) as [Rin2|e] eqn:Ei; [|discriminate].
  cbn [bind].
  destruct (ring_surface_brightness args) as [I'|].
  - intros [= <-]. exists jf, Rout2, Rin2. cbn. repeat split; assumption.
  - destruct (float_div _ _) as [I'|e] eqn:Ed; [|discriminate].
    cbn [bind]. intros [= <-]. exists jf, Rout2, Rin2. cbn.
    repeat split; assumption.
Qed.

Lemma for_rings_ok (args : Args F) (cd : string) (js : list nat) :
  forall (rs : list (Ring F)) (cl : list (Component F)),
    Forall2 (computed args) js rs ->
    for_rings args cd js cl =
    Ok (cl ++ flat_map (ring_disks cd (freq args)) rs)%list.
Proof.
  induction js as [|j js IH]; intros rs cl HF; inversion HF; subst; cbn.
  - now rewrite app_nil_r.
  - match goal with H : computed _ _ _ |- _ => rewrite H end. cbn.
    rewrite (IH _ _ ltac:(eassumption)). unfold add_disk.
    now rewrite <- !app_assoc.
Qed.

Lemma for_rings_raise (args : Args F) (cd : string) (js : list nat) :
  forall (j : nat) (e : exn) (cl : list (Component F)),
    In j js -> ring args j = Raise e ->
    exists e', for_rings args cd js cl = Raise e'.
Proof.
  induction js as [|i js IH]; intros j e cl Hin Hr; [contradiction|].
  cbn. destruct (ring args i) as [r|e'] eqn:E; cbn.
  - destruct Hin as [->|Hin]; [congruence|]. eapply IH; eassumption.
  - now exists e'.
Qed.

Lemma rings_computed (args : Args F) (js : list nat) :
  (forall j, In j js -> exists r, ring args j = Ok r) ->
  exists rs, Forall2 (computed args) js rs.
Proof.
  induction js as [|j js IH]; intros H.
  - exists []. constructor.
  - destruct (H j (or_introl eq_refl)) as [r Hr].
    destruct IH as [rs Hrs]; [intros i Hi; apply H; now right|].
    exists (r :: rs). now constructor.
Qed.

Lemma ring_disks_length (cd fr : string) (rs : list (Ring F)) :
  List.length (flat_map (ring_disks cd fr) rs) = (2 * List.length rs)%nat.
Proof. induction rs as [|r rs IH]; cbn; [reflexivity|]. rewrite IH. lia. Qed.

Lemma in_range (n : Z) (j : nat) : In j (range n) <-> (Z.of_nat j < n)%Z.
Proof. unfold range. rewrite in_seq. lia. Qed.

Variable qa_tos_rad : string -> string.

Lemma main_ok (args : Args F) (rs : list (Ring F)) :
  Forall2 (computed args) (range (n_rings args)) rs ->
  main qa_tos_rad args =
  Ok (mkModel
        (disk (center_dir qa_tos_rad args) (central_diameter args)
           (resolved_central_flux args) (freq args)
         :: flat_map (ring_disks (center_dir qa_tos_rad args) (freq args)) rs)
        (imagename args)).
Proof.
  intros HF. unfold main. cbv zeta.
  now rewrite (for_rings_ok _ _ _ _ _ HF).
Qed.

Lemma main_raise (args : Args F) (j : nat) (e : exn) :
  In j (range (n_rings args)) -> ring args j = Raise e ->
  exists e', main qa_tos_rad args = Raise e'.
Proof.
  intros Hin Hr. unfold main. cbv zeta.
  destruct (for_rings_raise args (center_dir qa_tos_rad args) _ j e
              (add_disk [] (center_dir qa_tos_rad args) (central_diameter args)
                 (resolved_central_flux args) (freq args)) Hin Hr) as [e' He'].
  exists e'. now rewrite He'.
Qed.

(** When [main] returns, every iteration of the loop has returned. *)
Lemma main_returned (args : Args F) (m : Model F) :
  main qa_tos_rad args = Ok m ->
  forall j, (Z.of_nat j < n_rings args)%Z -> exists r, ring args j = Ok r.
Proof.
  intros Hm j Hj. destruct (ring args j) as [r|e] eqn:E; [now exists r|].
  destruct (main_raise args j e (proj2 (in_range _ _) Hj) E) as [e' He'].
  congruence.
Qed.

Lemma main_components (args : Args F) (m : Model F) :
  main qa_tos_rad args = Ok m ->
  exists rs, Forall2 (computed args) (range (n_rings args)) rs /\
    m = mkModel
          (disk (center_dir qa_tos_rad args) (central_diameter args)
             (resolved_central_flux args) (freq args)
           :: flat_map (ring_disks (center_dir qa_tos_rad args) (freq args)) rs)
          (imagename args).
Proof.
  intros Hm. pose proof (main_returned args m Hm) as Hall.
  destruct (rings_computed args (range (n_rings args))) as [rs Hrs].
  { intros j Hj. apply Hall. now apply in_range. }
  exists rs. split; [exact Hrs|].
  rewrite (main_ok args rs Hrs) in Hm. now injection Hm as <-.
Qed.

End Loop.

(** ** Properties *)

(** C1 (flux invariance), as the code has it.  In exact arithmetic, in
    total-flux mode ([ring_surface_brightness] unset), for every ring index
    [j] whose annulus area [Aout - Ain] is strictly positive, the iteration
    returns and [Fout - Finn == F], where [F] is the resolved ring flux
    ([ring_flux] if set, else [flux]), whatever [j] and the radii are.  In
    the floats the script runs on the equality holds up to rounding: for the
    three rings of the default configuration [Fout - Finn] is within 1e-15
    (relative) of [F = 2.7e-4]. *)
Theorem flux_invariance :
  (forall (args : Args Q) (j : nat),
     ring_surface_brightness args = None ->
     0 < area_out args j - area_in args j ->
     exists r, ring args j = Ok r /\
               r_Fout r - r_Finn r == resolved_ring_flux args) /\
  Forall (fun j =>
            exists r, ring default64 j = Ok r /\
                      difference_close_to (1 # 10 ^ 15) (27 # 100000)
                        (r_Fout r) (r_Finn r) = true)
         [0; 1; 2]%nat.
Proof.
  split.
  - intros args j Hsb Hpos.
    assert (HA : ~ area_ring args j == 0) by (unfold area_ring; lra).
    eexists. split; [apply ring_total_flux_mode; assumption|].
    cbn [r_Fout r_Finn]. apply net_flux_total; [exact HA|reflexivity].
  - repeat constructor; eexists; (split; [reflexivity|vm_compute; reflexivity]).
Qed.

Lemma flux_invariance_witness :
  exists r, ring scenario_args 0 = Ok r /\ r_Fout r - r_Finn r == 27 # 100000.
Proof.
  apply (proj1 flux_invariance scenario_args 0%nat);
    [reflexivity | vm_compute; reflexivity].
Defined.

(** C1 as the specification words it does not hold of the floats: for a
    central diameter of 1 and a thickness of 1e-9 the annulus area is
    positive, yet [Fout - Finn] is 0.00026999998954..., off [F = 0.00027]
    by more than 1e-9 (relative). *)
Lemma flux_invariance_counterexample :
  exists r, ring thin64 0 = Ok r /\
            below 0%float (r_Aring r) = true /\
            PrimFloat.eqb (PrimFloat.sub (r_Fout r) (r_Finn r)) 0.00027%float
            = false /\
            difference_close_to (1 # 10 ^ 9) (27 # 100000)
              (r_Fout r) (r_Finn r) = false.
Proof.
  eexists. split; [reflexivity|]. repeat split; vm_compute; reflexivity.
Qed.

(** C5 (surface-brightness consistency), as the code has it.  In
    surface-brightness mode with brightness [I'], in any arithmetic, a
    computed ring has [I = I'], [Fout = I' * Aout], [Finn = I' * Ain] and
    [Aring = Aout - Ain], each operation being that of the arithmetic.  In
    exact arithmetic every iteration returns, [Fout - Finn ==
    I' * (Aout - Ain)], and [(Fout - Finn) / Aring == I'] when the area is
    not zero.  In the floats the script runs on the last equality holds up
    to rounding: for the three rings of the default geometry with
    brightness 3 the quotient is within 1e-15 (relative) of 3. *)
Theorem surface_brightness_consistency :
  (forall (F : Type) (A : Arith F) (args : Args F) (j : nat) (I' : F)
          (r : Ring F),
     ring_surface_brightness args = Some I' ->
     ring args j = Ok r ->
     r_I r = I' /\
     r_Fout r = fmul I' (r_Aout r) /\
     r_Finn r = fmul I' (r_Ain r) /\
     r_Aring r = fsub (r_Aout r) (r_Ain r)) /\
  (forall (args : Args Q) (j : nat) (I' : Q),
     ring_surface_brightness args = Some I' ->
     exists r, ring args j = Ok r /\
               r_Fout r - r_Finn r == I' * (area_out args j - area_in args j) /\
               (~ area_ring args j == 0 ->
                (r_Fout r - r_Finn r) / area_ring args j == I')) /\
  Forall (fun j =>
            exists r, ring bright64 j = Ok r /\
                      ratio_close_to (1 # 10 ^ 15) 3
                        (r_Fout r) (r_Finn r) (r_Aring r) = true)
         [0; 1; 2]%nat.
Proof.
  split; [|split].
  - intros F A args j I' r Hsb Hr.
    destruct (ring_values args j r Hr)
      as (jf & o & i & _ & _ & _ & _ & _ & _ & _ & HA & Ho & Hi & HI).
    rewrite Hsb in HI. subst I'. repeat split; assumption.
  - intros args j I' Hsb. eexists.
    split; [apply ring_surface_brightness_mode; exact Hsb|].
    cbn [r_Fout r_Finn]. split; [ring|].
    intros HA. unfold area_ring in *. field. exact HA.
  - repeat constructor; eexists; (split; [reflexivity|vm_compute; reflexivity]).
Qed.

Lemma surface_brightness_consistency_witness :
  exists r, ring brightness_args 2 = Ok r /\
            r_Fout r - r_Finn r ==
              1 * (area_out brightness_args 2 - area_in brightness_args 2) /\
            (~ area_ring brightness_args 2 == 0 ->
             (r_Fout r - r_Finn r) / area_ring brightness_args 2 == 1).
Proof.
  apply (proj1 (proj2 surface_brightness_consistency) brightness_args 2%nat 1).
  reflexivity.
Defined.

(** C5 as the specification words it does not hold of the floats: for a
    central diameter of 1, a thickness of 1e-16 and brightness 0.3 the area
    is not zero, yet [(Fout - Finn) / Aring] is 0.25. *)
Lemma surface_brightness_consistency_counterexample :
  exists r, ring sliver_brightness64 0 = Ok r /\
            below 0%float (r_Aring r) = true /\
            PrimFloat.div (PrimFloat.sub (r_Fout r) (r_Finn r)) (r_Aring r)
            = 0.25%float /\
            ratio_close_to (1 # 10) (3 # 10)
              (r_Fout r) (r_Finn r) (r_Aring r) = false.
Proof.
  eexists. split; [reflexivity|]. repeat split; vm_compute; reflexivity.
Qed.

(** C6 (monotonic radii), as the code has it.  In exact arithmetic, with
    [ring_thickness > 0] and [ring_spacing >= 0], for every ring index [j]
    the radii satisfy [Rin j < Rout j <= Rin (j+1)], the gap
    [Rin (j+1) - Rout j] is exactly [ring_spacing], and the rings are
    contiguous when the spacing is zero.  In the floats the script runs on
    this holds up to rounding: at the default configuration, for
    [j = 0, 1, 2], [Rin j < Rout j < Rin (j+1)] and the gap is within 1e-15
    (relative) of 0.009. *)
Theorem monotonic_radii :
  (forall (args : Args Q) (j : nat),
     0 < ring_thickness args ->
     0 <= ring_spacing args ->
     radius_in args j < radius_out args j /\
     radius_out args j <= radius_in args (S j) /\
     radius_in args (S j) - radius_out args j == ring_spacing args /\
     (ring_spacing args == 0 -> radius_out args j == radius_in args (S j))) /\
  Forall (fun j =>
            exists r r', ring default64 j = Ok r /\
                         ring default64 (S j) = Ok r' /\
                         below (r_Rin r) (r_Rout r) = true /\
                         below (r_Rout r) (r_Rin r') = true /\
                         difference_close_to (1 # 10 ^ 15) (9 # 1000)
                           (r_Rin r') (r_Rout r) = true)
         [0; 1; 2]%nat.
Proof.
  split.
  - intros args j Ht Hs. pose proof (radius_in_succ args j) as Hsucc.
    unfold radius_out, Rout in *. fold (radius_in args j) in *.
    cbn [fadd exact] in *. repeat split; lra.
  - repeat constructor; eexists; eexists;
      (split; [reflexivity|split; [reflexivity|]]);
      repeat split; vm_compute; reflexivity.
Qed.

Lemma monotonic_radii_witness :
  radius_in default_args 1 < radius_out default_args 1 /\
  radius_out default_args 1 <= radius_in default_args 2 /\
  radius_in default_args 2 - radius_out default_args 1
    == ring_spacing default_args /\
  (ring_spacing default_args == 0 ->
   radius_out default_args 1 == radius_in default_args 2).
Proof.
  apply (proj1 monotonic_radii default_args 1%nat);
    vm_compute; [reflexivity | discriminate].
Defined.

(** C6 as the specification words it does not hold of the floats: at the
    default geometry without spacing, ring 2 ends at 0.01575 and ring 3
    starts at 0.015749999999999997, so the two overlap; and at the default
    configuration the gap between ring 1 and ring 2, computed as the script
    would, is not the float 0.009. *)
Lemma monotonic_radii_counterexample :
  (exists r r', ring contiguous64 2 = Ok r /\ ring contiguous64 3 = Ok r' /\
                below (r_Rin r') (r_Rout r) = true) /\
  (exists r r', ring default64 1 = Ok r /\ ring default64 2 = Ok r' /\
                PrimFloat.eqb (PrimFloat.sub (r_Rin r') (r_Rout r)) 0.009%float
                = false).
Proof.
  split; eexists; eexists; (split; [reflexivity|split; [reflexivity|]]);
    vm_compute; reflexivity.
Qed.

(** C9 (the division is safe), as the code has it.  In exact arithmetic,
    with [ring_thickness > 0], [ring_spacing >= 0] and
    [central_diameter >= 0], whatever [ring_flux] and [flux] are, the
    annulus area [Aout - Ain] is strictly positive for every ring index
    [j]; hence in total-flux mode every iteration returns with
    [I = ring_flux / Aring], no iteration raises [ZeroDivisionError], and
    [main] returns a model.  In the floats the script runs on this is so at
    the default configuration: the three areas are positive and [main]
    returns. *)
Theorem division_is_safe :
  (forall (qa_tos_rad : string -> string) (args : Args Q),
     0 < ring_thickness args ->
     0 <= ring_spacing args ->
     0 <= central_diameter args ->
     (forall j, 0 < area_out args j - area_in args j) /\
     (ring_surface_brightness args = None ->
      forall j, exists r, ring args j = Ok r /\
                          r_I r = resolved_ring_flux args / area_ring args j) /\
     (forall j, ring args j <> Raise ZeroDivisionError) /\
     exists m, main qa_tos_rad args = Ok m) /\
  Forall (fun j =>
            exists r, ring default64 j = Ok r /\
                      below 0%float (r_Aring r) = true)
         [0; 1; 2]%nat /\
  (forall qa_tos_rad : string -> string,
     exists m, main qa_tos_rad default64 = Ok m).
Proof.
  split; [|split].
  - intros qa_tos_rad args Ht Hs Hc.
    assert (Hpos : forall j, 0 < area_ring args j)
      by (intros j; now apply area_ring_pos).
    assert (Hnz : forall j, ~ area_ring args j == 0)
      by (intros j; specialize (Hpos j); lra).
    assert (Hret : forall j, exists r, ring args j = Ok r)
      by (intros j; apply ring_returns; intros _; apply Hnz).
    repeat split.
    + intros j. exact (Hpos j).
    + intros Hsb j. eexists.
      split; [now apply ring_total_flux_mode|reflexivity].
    + intros j. destruct (Hret j) as [r Hr]. congruence.
    + destruct (rings_computed args (range (n_rings args))) as [rs Hrs];
        [intros j _; apply Hret|].
      eexists. apply main_ok. exact Hrs.
  - repeat constructor; eexists; (split; [reflexivity|vm_compute; reflexivity]).
  - intros qa_tos_rad. eexists. reflexivity.
Qed.

Lemma division_is_safe_witness :
  (forall j, 0 < area_out default_args j - area_in default_args j) /\
  (ring_surface_brightness default_args = None ->
   forall j, exists r, ring default_args j = Ok r /\
                       r_I r = resolved_ring_flux default_args
                               / area_ring default_args j) /\
  (forall j, ring default_args j <> Raise ZeroDivisionError) /\
  exists m, main (fun s => s) default_args = Ok m.
Proof.
  apply (proj1 division_is_safe (fun s => s) default_args);
    vm_compute; first [reflexivity | discriminate].
Defined.

(** C9 as the specification words it does not hold of the floats: at the
    default geometry with a thickness of 1e-20 the three preconditions
    hold, yet [Rin + ring_thickness] is [Rin], the area is 0.0, and
    iteration 0, hence [main], raises [ZeroDivisionError]. *)
Lemma division_is_safe_counterexample :
  below 0%float (ring_thickness tiny64) = true /\
  below 0%float (ring_spacing tiny64) = true /\
  below 0%float (central_diameter tiny64) = true /\
  ring tiny64 0 = Raise ZeroDivisionError /\
  main (fun s => s) tiny64 = Raise ZeroDivisionError.
Proof. repeat split; vm_compute; reflexivity. Qed.

(** The brightness used in total-flux mode falls when the area grows. *)
Lemma brightness_antitone (F A B : Q) :
  0 < F -> 0 < A -> A < B -> F / B < F / A.
Proof.
  intros HF HA HAB. unfold Qdiv.
  apply Qmult_lt_l; [exact HF|].
  apply -> Qinv_lt_contravar; [exact HAB|lra|exact HA].
Qed.

Lemma radius_in_increasing (args : Args Q) (j k : nat) :
  0 < ring_thickness args -> 0 <= ring_spacing args ->
  (j < k)%nat -> radius_in args j < radius_in args k.
Proof.
  intros Ht Hs Hjk. induction Hjk as [|k Hjk IH].
  - rewrite radius_in_succ. lra.
  - rewrite radius_in_succ. lra.
Qed.

Lemma area_ring_increasing (args : Args Q) (j k : nat) :
  0 < ring_thickness args -> 0 <= ring_spacing args ->
  (j < k)%nat -> area_ring args j < area_ring args k.
Proof.
  intros Ht Hs Hjk. rewrite !area_ring_factor.
  pose proof (radius_in_increasing args j k Ht Hs Hjk) as HR.
  pose proof math_pi_pos as Hpi.
  apply Qmult_lt_l; [exact Hpi|].
  apply Qmult_lt_l; [exact Ht|]. lra.
Qed.

(** C10 (outer rings are fainter), as the code has it.  In exact
    arithmetic, in total-flux mode with resolved ring flux [F > 0],
    [ring_thickness > 0], [ring_spacing >= 0] and [central_diameter >= 0],
    for ring indices [j < k] both iterations return, the annulus area of
    ring [k] is strictly larger than that of ring [j], and the surface
    brightness [I = F / Aring] of ring [k] is strictly smaller than that of
    ring [j].  In the floats the script runs on this is so at the default
    configuration: the areas of rings 0, 1, 2 increase and their
    brightnesses decrease. *)
Theorem brightness_decreasing :
  (forall (args : Args Q) (j k : nat),
     ring_surface_brightness args = None ->
     0 < resolved_ring_flux args ->
     0 < ring_thickness args ->
     0 <= ring_spacing args ->
     0 <= central_diameter args ->
     (j < k)%nat ->
     exists rj rk, ring args j = Ok rj /\ ring args k = Ok rk /\
                   r_I rj = resolved_ring_flux args / area_ring args j /\
                   r_I rk = resolved_ring_flux args / area_ring args k /\
                   r_Aring rj < r_Aring rk /\
                   r_I rk < r_I rj) /\
  Forall (fun j =>
            exists r r', ring default64 j = Ok r /\
                         ring default64 (S j) = Ok r' /\
                         below (r_Aring r) (r_Aring r') = true /\
                         below (r_I r') (r_I r) = true)
         [0; 1]%nat.
Proof.
  split.
  - intros args j k Hsb HF Ht Hs Hc Hjk.
    pose proof (area_ring_pos args j Ht Hs Hc) as Hj.
    pose proof (area_ring_pos args k Ht Hs Hc) as Hk.
    pose proof (area_ring_increasing args j k Ht Hs Hjk) as Hlt.
    do 2 eexists.
    split; [apply ring_total_flux_mode; [exact Hsb|lra]|].
    split; [apply ring_total_flux_mode; [exact Hsb|lra]|].
    cbn [r_I r_Aring]. repeat split; try assumption.
    now apply brightness_antitone.
  - repeat constructor; eexists; eexists;
      (split; [reflexivity|split; [reflexivity|]]);
      split; vm_compute; reflexivity.
Qed.

Lemma brightness_decreasing_witness :
  exists rj rk, ring default_args 0 = Ok rj /\ ring default_args 2 = Ok rk /\
                r_I rj = resolved_ring_flux default_args
                         / area_ring default_args 0 /\
                r_I rk = resolved_ring_flux default_args
                         / area_ring default_args 2 /\
                r_Aring rj < r_Aring rk /\
                r_I rk < r_I rj.
Proof.
  apply (proj1 brightness_decreasing default_args 0%nat 2%nat);
    first [reflexivity | lia | vm_compute; first [reflexivity | discriminate]].
Defined.

(** C10 as the specification words it does not hold of the floats: with a
    thickness of 1e-11 and no spacing the preconditions hold, yet the area
    computed for ring 4 is smaller than the one computed for ring 3, and
    its brightness larger. *)
Lemma brightness_decreasing_counterexample :
  ring_surface_brightness hairline64 = None /\
  below 0%float (resolved_ring_flux hairline64) = true /\
  below 0%float (ring_thickness hairline64) = true /\
  ring_spacing hairline64 = 0%float /\
  below 0%float (central_diameter hairline64) = true /\
  exists r r', ring hairline64 3 = Ok r /\ ring hairline64 4 = Ok r' /\
               below (r_Aring r') (r_Aring r) = true /\
               below (r_I r) (r_I r') = true.
Proof.
  repeat split; try (vm_compute; reflexivity).
  eexists. eexists. split; [reflexivity|]. split; [reflexivity|].
  split; vm_compute; reflexivity.
Qed.

(** C7 (component count and order).  In any arithmetic, for
    [n_rings = N >= 0], [main] assembles a component list exactly when
    every iteration of [range N] returns, and the list it assembles has
    exactly [1 + 2 N] entries: first the central disk (diameter
    [central_diameter], flux the resolved central flux), then for the rings
    [0 .. N-1] in ascending order the outer disk (diameter [2.0 * Rout],
    flux [Fout]) followed by the inner disk (diameter [2.0 * Rin], flux
    [- Finn]); all are disks with equal axes in arcsec, flux in Jy, the
    same centre direction, the same frequency and position angle 0deg. *)
Theorem component_count (F : Type) (A : Arith F)
    (qa_tos_rad : string -> string) (args : Args F) :
  (0 <= n_rings args)%Z ->
  ((exists m, main qa_tos_rad args = Ok m) <->
   (forall j, (Z.of_nat j < n_rings args)%Z -> exists r, ring args j = Ok r))
  /\
  forall m, main qa_tos_rad args = Ok m ->
    Z.of_nat (List.length (components m)) = (1 + 2 * n_rings args)%Z /\
    exists rs,
      Forall2 (fun j r => ring args j = Ok r)
              (seq 0 (Z.to_nat (n_rings args))) rs /\
      components m =
        circular (center_dir qa_tos_rad args) (freq args)
          (central_diameter args) (resolved_central_flux args)
        :: flat_map
             (fun r =>
                [circular (center_dir qa_tos_rad args) (freq args)
                   (fmul two (r_Rout r)) (r_Fout r);
                 circular (center_dir qa_tos_rad args) (freq args)
                   (fmul two (r_Rin r)) (fneg (r_Finn r))])
             rs.
Proof.
  intros HN. split.
  - split.
    + intros [m Hm]. exact (main_returned qa_tos_rad args m Hm).
    + intros Hall.
      destruct (rings_computed args (range (n_rings args))) as [rs Hrs].
      { intros j Hj. apply Hall. now apply in_range. }
      eexists. apply main_ok. exact Hrs.
  - intros m Hm.
    destruct (main_components qa_tos_rad args m Hm) as (rs & Hrs & ->).
    cbn [components]. split.
    + cbn [List.length]. rewrite ring_disks_length.
      rewrite <- (Forall2_length Hrs). unfold range. rewrite length_seq. lia.
    + exists rs. split; [exact Hrs|]. reflexivity.
Qed.

Lemma component_count_witness :
  exists m,
    main (fun s => s) default64 = Ok m /\
    Z.of_nat (List.length (components m)) = 7%Z /\
    exists rs,
      Forall2 (fun j r => ring default64 j = Ok r) [0; 1; 2]%nat rs /\
      components m =
        circular "J2000 12h00m00.00s -23d00m00.00" "343.5GHz"
          0.0045%float 0.00027%float
        :: flat_map
             (fun r =>
                [circular "J2000 12h00m00.00s -23d00m00.00" "343.5GHz"
                   (PrimFloat.mul 2 (r_Rout r)) (r_Fout r);
                 circular "J2000 12h00m00.00s -23d00m00.00" "343.5GHz"
                   (PrimFloat.mul 2 (r_Rin r)) (PrimFloat.opp (r_Finn r))])
             rs.
Proof.
  destruct (component_count float binary64 (fun s => s) default64)
    as [_ Hall]; [vm_compute; discriminate|].
  eexists. split; [reflexivity|]. apply Hall. reflexivity.
Defined.

(** C3 (end-to-end scenario), as the code computes it.  For
    [central_diameter = 0.0045], [ring_thickness = 0.0045],
    [ring_spacing = 0.009], [n_rings = 1] and [ring_flux = 2.7e-4] in
    total-flux mode, iteration 0 returns with [Rin] the float 0.00225,
    [Rout = Rin + ring_thickness] about 0.00675, [Aring] about
    [pi * (0.00675^2 - 0.00225^2)], that is about 1.27e-4, [I] about 2.12,
    [Fout] about 3.04e-4, [Finn] about 3.4e-5 and net flux about 2.70e-4;
    [main] returns the central disk followed by the two disks of that
    ring. *)
Theorem end_to_end_scenario (qa_tos_rad : string -> string) :
  exists r,
    ring scenario64 0 = Ok r /\
    r_Rin r = 0.00225%float /\
    close_to (1 # 10 ^ 15) (675 # 100000) (r_Rout r) = true /\
    close_to (1 # 10 ^ 14)
      (math_pi * ((675 # 100000) ^ 2 - (225 # 100000) ^ 2)) (r_Aring r)
    = true /\
    within (1265 # 10000000) (1275 # 10000000) (r_Aring r) = true /\
    within (2115 # 1000) (2125 # 1000) (r_I r) = true /\
    within (3035 # 10000000) (3045 # 10000000) (r_Fout r) = true /\
    within (335 # 10000000) (345 # 10000000) (r_Finn r) = true /\
    difference_close_to (1 # 10 ^ 15) (27 # 100000) (r_Fout r) (r_Finn r)
    = true /\
    main qa_tos_rad scenario64 =
    Ok (mkModel
          [circular (center_dir qa_tos_rad scenario64) "343.5GHz"
             0.0045%float 0.00027%float;
           circular (center_dir qa_tos_rad scenario64) "343.5GHz"
             (PrimFloat.mul 2 (r_Rout r)) (r_Fout r);
           circular (center_dir qa_tos_rad scenario64) "343.5GHz"
             (PrimFloat.mul 2 (r_Rin r)) (PrimFloat.opp (r_Finn r))]
          "ringModel_decm2300m0000").
Proof.
  eexists. split; [reflexivity|].
  repeat split; vm_compute; reflexivity.
Qed.

(** C3 as the specification words it does not hold: with these inputs the
    outer radius of ring 0 is about 0.00675, not 0.0045, so the area is not
    about 4.77e-5, the brightness is not about 5.66, and [Fout], [Finn] are
    not about 3.6e-4, 9e-5. *)
Lemma end_to_end_scenario_counterexample :
  exists r,
    ring scenario64 0 = Ok r /\
    close_to (1 # 100) (45 # 10000) (r_Rout r) = false /\
    within (4765 # 100000000) (4775 # 100000000) (r_Aring r) = false /\
    within (5655 # 1000) (5665 # 1000) (r_I r) = false /\
    within (355 # 1000000) (365 # 1000000) (r_Fout r) = false /\
    within (85 # 1000000) (95 # 1000000) (r_Finn r) = false.
Proof.
  eexists. split; [reflexivity|].
  repeat split; vm_compute; reflexivity.
Qed.

(** The first component is the central disk. *)
Lemma main_central (F : Type) (A : Arith F) (qa_tos_rad : string -> string)
    (args : Args F) (m : Model F) :
  main qa_tos_rad args = Ok m ->
  hd_error (components m) =
  Some (circular (center_dir qa_tos_rad args) (freq args)
          (central_diameter args) (resolved_central_flux args)).
Proof.
  intros Hm. destruct (main_components qa_tos_rad args m Hm) as (rs & _ & ->).
  reflexivity.
Qed.

(** C4 (override precedence), as the code has it.  In any arithmetic:
    whenever [main] returns a model, its first component carries
    [central_flux] if that is set and [flux] otherwise; a computed ring has
    [I = ring_surface_brightness], [Fout = I * Aout], [Finn = I * Ain] if
    [ring_surface_brightness] is set, otherwise [I = ring_flux / Aring] if
    [ring_flux] is set, otherwise [I = flux / Aring]; in surface-brightness
    mode an iteration does the same whatever [ring_flux] and [flux] are,
    and with [ring_flux] set it does the same whatever [flux] is.  In exact
    arithmetic the net flux [Fout - Finn] of a ring computed in total-flux
    mode with [ring_flux] set is [ring_flux].  In the floats the script
    runs on, with [flux = 2.7e-4] and [ring_flux = 5e-3] at the default
    geometry, the net flux of each of the three rings is within 1e-15
    (relative) of 5e-3, and not within a half of 2.7e-4; with
    [ring_surface_brightness = 1.0] in addition, each ring has [I = 1.0]. *)
Theorem override_precedence :
  (forall (F : Type) (A : Arith F) (qa_tos_rad : string -> string)
          (args : Args F) (m : Model F),
     main qa_tos_rad args = Ok m ->
     exists c, hd_error (components m) = Some c /\
               c_flux c = match central_flux args with
                          | Some cf => cf
                          | None => flux args
                          end) /\
  (forall (F : Type) (A : Arith F) (args : Args F) (j : nat) (r : Ring F),
     ring args j = Ok r ->
     match ring_surface_brightness args, ring_flux args with
     | Some I', _ =>
         r_I r = I' /\ r_Fout r = fmul I' (r_Aout r) /\
         r_Finn r = fmul I' (r_Ain r)
     | None, Some rf => float_div rf (r_Aring r) = Ok (r_I r)
     | None, None => float_div (flux args) (r_Aring r) = Ok (r_I r)
     end) /\
  (forall (F : Type) (A : Arith F) (args : Args F) (j : nat)
          (rf : option F) (fl : F),
     (ring_surface_brightness args <> None ->
      ring (with_fluxes args rf fl) j = ring args j) /\
     (ring_flux args <> None ->
      ring (with_fluxes args (ring_flux args) fl) j = ring args j)) /\
  (forall (args : Args Q) (j : nat) (rf : Q),
     ring_surface_brightness args = None ->
     ring_flux args = Some rf ->
     ~ area_ring args j == 0 ->
     exists r, ring args j = Ok r /\ r_Fout r - r_Finn r == rf) /\
  Forall (fun j =>
            exists r, ring override64 j = Ok r /\
                      difference_close_to (1 # 10 ^ 15) (5 # 1000)
                        (r_Fout r) (r_Finn r) = true /\
                      difference_close_to (1 # 2) (27 # 100000)
                        (r_Fout r) (r_Finn r) = false)
         [0; 1; 2]%nat /\
  Forall (fun j =>
            exists r, ring brightness64 j = Ok r /\ r_I r = 1%float)
         [0; 1; 2]%nat.
Proof.
  split; [|split; [|split; [|split; [|split]]]].
  - intros F A qa_tos_rad args m Hm. eexists.
    split; [exact (main_central F A qa_tos_rad args m Hm)|reflexivity].
  - intros F A args j r Hr.
    destruct (ring_values args j r Hr)
      as (jf & o & i & _ & _ & _ & _ & _ & _ & _ & _ & Ho & Hi & HI).
    unfold resolved_ring_flux in HI.
    destruct (ring_surface_brightness args) as [I'|].
    + subst I'. repeat split; assumption.
    + destruct (ring_flux args); exact HI.
  - intros F A args j rf fl. split; intros H; unfold ring.
    + cbn [with_fluxes ring_surface_brightness].
      destruct (ring_surface_brightness args); [reflexivity|contradiction].
    + unfold resolved_ring_flux. cbn.
      destruct (ring_flux args); [reflexivity|contradiction].
  - intros args j rf Hsb Hrf HA. eexists.
    split; [apply ring_total_flux_mode; assumption|].
    cbn [r_Fout r_Finn].
    pose proof (net_flux_total (resolved_ring_flux args) _
                  (area_out args j) (area_in args j) HA
                  ltac:(reflexivity)) as Hnet.
    unfold resolved_ring_flux in *. rewrite Hrf in *. exact Hnet.
  - repeat constructor; eexists;
      (split; [reflexivity|split; vm_compute; reflexivity]).
  - repeat constructor; eexists; (split; reflexivity).
Qed.

Lemma override_precedence_witness :
  exists r, ring override_args 1 = Ok r /\ r_Fout r - r_Finn r == 5 # 1000.
Proof.
  apply (proj1 (proj2 (proj2 (proj2 override_precedence)))
           override_args 1%nat (5 # 1000));
    first [reflexivity | vm_compute; discriminate].
Defined.

(** C4 as the specification words it does not hold of the floats: with
    [flux = 2.7e-4] and [ring_flux = 5e-3], for a central diameter of 1 and
    a thickness of 1e-16, the ring is computed and its net flux
    [Fout - Finn] is 0.00390625, not 5e-3. *)
Lemma override_precedence_counterexample :
  flux sliver64 = 0.00027%float /\
  ring_flux sliver64 = Some 0.005%float /\
  ring_surface_brightness sliver64 = None /\
  exists r, ring sliver64 0 = Ok r /\
            PrimFloat.sub (r_Fout r) (r_Finn r) = 0.00390625%float /\
            difference_close_to (1 # 10) (5 # 1000) (r_Fout r) (r_Finn r)
            = false.
Proof.
  repeat split. eexists. split; [reflexivity|].
  split; vm_compute; reflexivity.
Qed.

Lemma area_ring_flat (args : Args Q) (j : nat) :
  ring_thickness args == 0 -> area_ring args j == 0.
Proof. intros H. rewrite area_ring_factor, H. ring. Qed.

(** In exact arithmetic the only exception is [ZeroDivisionError]. *)
Lemma ring_exact_raise (args : Args Q) (j : nat) (e : exn) :
  ring args j = Raise e -> e = ZeroDivisionError.
Proof.
  unfold ring. cbn [of_int fpow2 exact bind].
  destruct (ring_surface_brightness args); [discriminate|].
  cbv zeta. unfold float_div.
  destruct (is_zero _); [now intros [= <-]|discriminate].
Qed.

Lemma for_rings_raised (F : Type) (A : Arith F) (args : Args F)
    (cd : string) (js : list nat) :
  forall (cl : list (Component F)) (e : exn),
    for_rings args cd js cl = Raise e ->
    exists j, In j js /\ ring args j = Raise e.
Proof.
  induction js as [|i js IH]; intros cl e; [discriminate|].
  cbn. destruct (ring args i) as [r|e'] eqn:E; cbn.
  - intros H. destruct (IH _ _ H) as (j & Hj & Hr). exists j. auto.
  - intros [= <-]. exists i. auto.
Qed.

Lemma main_exact_raise (qa_tos_rad : string -> string) (args : Args Q)
    (e : exn) :
  main qa_tos_rad args = Raise e -> e = ZeroDivisionError.
Proof.
  unfold main. cbv zeta.
  destruct (for_rings _ _ _ _) as [cl|e'] eqn:E; [discriminate|].
  cbn. intros [= <-].
  destruct (for_rings_raised _ _ _ _ _ _ _ E) as (j & _ & Hr).
  exact (ring_exact_raise args j e' Hr).
Qed.

(** C2 (degenerate rings), as the code behaves.  In exact arithmetic, when
    [ring_thickness] is zero the annulus area of every ring is zero; then
    in total-flux mode the iteration raises [ZeroDivisionError], and so
    does [main] as soon as [n_rings >= 1], so that no model is emitted; in
    surface-brightness mode the iteration returns with
    [Fout == Finn == I * pi * Rin^2] and net flux zero, and [main] returns
    a model; and a negative annulus area in total-flux mode is not
    rejected.  In the floats the script runs on: with zero thickness at the
    default central diameter, total-flux mode raises [ZeroDivisionError]
    (iteration 0 and [main]) and surface-brightness mode returns with
    [Fout = Finn], positive, and net flux 0; with zero thickness and a
    central diameter of 2e154 in total-flux mode both disk areas are [inf],
    [Aring], [I], [Fout] and [Finn] are NaN and nothing is raised; with a
    thickness of -0.001 in total-flux mode the area is negative and the
    iteration returns. *)
Theorem degenerate_rings :
  (forall (qa_tos_rad : string -> string) (args : Args Q) (j : nat),
     (ring_thickness args == 0 ->
      area_ring args j == 0 /\
      (ring_surface_brightness args = None ->
       ring args j = Raise ZeroDivisionError /\
       ((Z.of_nat j < n_rings args)%Z ->
        main qa_tos_rad args = Raise ZeroDivisionError)) /\
      (forall I', ring_surface_brightness args = Some I' ->
       (exists r, ring args j = Ok r /\
                  r_Fout r == r_Finn r /\
                  r_Fout r == I' * (math_pi * radius_in args j ^ 2) /\
                  r_Fout r - r_Finn r == 0) /\
       exists m, main qa_tos_rad args = Ok m)) /\
     (ring_surface_brightness args = None -> area_ring args j < 0 ->
      exists r, ring args j = Ok r)) /\
  (ring flat_flux64 0 = Raise ZeroDivisionError /\
   forall qa_tos_rad : string -> string,
     main qa_tos_rad flat_flux64 = Raise ZeroDivisionError) /\
  (exists r, ring flat_brightness64 0 = Ok r /\
             r_Fout r = r_Finn r /\
             below 0%float (r_Fout r) = true /\
             exact_difference (r_Fout r) (r_Finn r) = Some 0) /\
  (exists r, ring flat_huge64 0 = Ok r /\
             r_Aout r = infinity /\ r_Ain r = infinity /\
             PrimFloat.is_nan (r_Aring r) = true /\
             PrimFloat.is_nan (r_I r) = true /\
             PrimFloat.is_nan (r_Fout r) = true /\
             PrimFloat.is_nan (r_Finn r) = true) /\
  (exists r, ring negative_area64 0 = Ok r /\
             below (r_Aring r) 0%float = true).
Proof.
  split; [|split; [|split; [|split]]].
  - intros qa_tos_rad args j. split.
    + intros Ht. pose proof (area_ring_flat args j Ht) as HA.
      split; [exact HA|]. split.
      * intros Hsb.
        pose proof (ring_total_flux_raise args j Hsb HA) as Hr.
        split; [exact Hr|]. intros Hj.
        destruct (main_raise qa_tos_rad args j _ (proj2 (in_range _ _) Hj) Hr)
          as [e He].
        now rewrite He, (main_exact_raise qa_tos_rad args e He).
      * intros I' Hsb. split.
        -- eexists. split; [apply ring_surface_brightness_mode; exact Hsb|].
           cbn [r_Fout r_Finn].
           assert (HR : radius_out args j == radius_in args j).
           { unfold radius_out, Rout. fold (radius_in args j).
             cbn [fadd exact]. rewrite Ht. ring. }
           unfold area_out, area_in. rewrite HR. repeat split; ring.
        -- destruct (rings_computed args (range (n_rings args))) as [rs Hrs].
           { intros i _. apply ring_returns. congruence. }
           eexists. apply main_ok. exact Hrs.
    + intros Hsb Hneg.
      assert (HA : ~ area_ring args j == 0) by lra.
      eexists. now apply ring_total_flux_mode.
  - split; [reflexivity|]. intros qa_tos_rad. reflexivity.
  - eexists. split; [reflexivity|]. repeat split; vm_compute; reflexivity.
  - eexists. split; [reflexivity|]. repeat split; vm_compute; reflexivity.
  - eexists. split; [reflexivity|]. vm_compute; reflexivity.
Qed.

Lemma degenerate_rings_witness :
  (ring flat_flux_args 0 = Raise ZeroDivisionError /\
   main (fun s => s) flat_flux_args = Raise ZeroDivisionError) /\
  (exists r, ring flat_brightness_args 0 = Ok r /\
             r_Fout r == r_Finn r /\
             r_Fout r == 1 * (math_pi * radius_in flat_brightness_args 0 ^ 2) /\
             r_Fout r - r_Finn r == 0) /\
  (exists r, ring negative_area_args 0 = Ok r).
Proof.
  repeat apply conj.
  - apply (proj1 degenerate_rings (fun s => s) flat_flux_args 0%nat);
      reflexivity.
  - apply (proj1 degenerate_rings (fun s => s) flat_flux_args 0%nat);
      reflexivity.
  - apply (proj1 (proj1 degenerate_rings (fun s => s) flat_brightness_args
                    0%nat) ltac:(reflexivity)) with (I' := 1).
    reflexivity.
  - apply (proj1 degenerate_rings (fun s => s) negative_area_args 0%nat);
      reflexivity.
Defined.

(** C2 as the specification words it does not hold: with zero thickness in
    surface-brightness mode [Fout] and [Finn] are equal but not zero; a
    negative annulus area in total-flux mode is not rejected; and with zero
    thickness in total-flux mode and a central diameter of 2e154 nothing is
    raised and the fluxes are NaN. *)
Lemma degenerate_rings_counterexample :
  (ring_thickness flat_brightness64 = 0%float /\
   exists r, ring flat_brightness64 0 = Ok r /\
             below 0%float (r_Fout r) = true /\
             below 0%float (r_Finn r) = true) /\
  (ring_surface_brightness negative_area64 = None /\
   exists r, ring negative_area64 0 = Ok r /\
             below (r_Aring r) 0%float = true) /\
  (ring_thickness flat_huge64 = 0%float /\
   ring_surface_brightness flat_huge64 = None /\
   exists r, ring flat_huge64 0 = Ok r /\
             PrimFloat.is_nan (r_Fout r) = true /\
             PrimFloat.is_nan (r_Finn r) = true).
Proof.
  repeat split; eexists; (split; [reflexivity|]);
    repeat split; vm_compute; reflexivity.
Qed.

(** ** More on [main] *)

(** X13.  With [n_rings <= 0] the loop does not run: [main] returns the
    central disk alone, also for a thickness of zero in total-flux mode,
    which raises as soon as [n_rings >= 1]. *)
Theorem no_rings (F : Type) (A : Arith F) (qa_tos_rad : string -> string)
    (args : Args F) :
  (n_rings args <= 0)%Z ->
  main qa_tos_rad args =
  Ok (mkModel
        [disk (center_dir qa_tos_rad args) (central_diameter args)
           (resolved_central_flux args) (freq args)]
        (imagename args)).
Proof.
  intros Hn. unfold main, range.
  replace (Z.to_nat (n_rings args)) with 0%nat by lia. reflexivity.
Qed.

Lemma no_rings_witness :
  ring_thickness no_ring_args == 0 /\
  ring_surface_brightness no_ring_args = None /\
  main (fun s => s) no_ring_args =
  Ok (mkModel
        [disk "J2000 12h00m00.00s -23d00m00.00" (45 # 10000) (27 # 100000)
           "343.5GHz"]
        "ringModel_decm2300m0000").
Proof.
  split; [reflexivity|]. split; [reflexivity|].
  apply (no_rings Q exact (fun s => s) no_ring_args). discriminate.
Defined.





Section FirstError.

Context {F : Type} {A : Arith F}.

Lemma for_rings_first_error (args : Args F) (cd : string) (len : nat) :
  forall (start : nat) (cl : list (Component F)) (e : exn),
    for_rings args cd (seq start len) cl = Raise e <->
    exists j, (start <= j < start + len)%nat /\ ring args j = Raise e /\
              forall i, (start <= i < j)%nat -> exists r, ring args i = Ok r.
Proof.
  induction len as [|len IH]; intros start cl e.
  - cbn. split; [discriminate|]. intros (j & Hj & _). lia.
  - cbn [seq for_rings]. destruct (ring args start) as [r|e'] eqn:E; cbn [bind].
    + rewrite IH. split.
      * intros (j & Hj & Hr & Hi). exists j. split; [lia|]. split; [exact Hr|].
        intros i Hi'. destruct (Nat.eq_dec i start) as [->|Hne];
          [now exists r|]. apply Hi. lia.
      * intros (j & Hj & Hr & Hi). exists j.
        assert (j <> start) by congruence.
        split; [lia|]. split; [exact Hr|]. intros i Hi'. apply Hi. lia.
    + split.
      * intros [= <-]. exists start. split; [lia|]. split; [exact E|].
        intros i Hi. lia.
      * intros (j & Hj & Hr & Hi).
        destruct (Nat.eq_dec j start) as [->|Hne]; [congruence|].
        destruct (Hi start ltac:(lia)) as [r Hr']. congruence.
Qed.

(** X19.  In any arithmetic, [main] raises an exception exactly when some
    iteration of [range n_rings] does, and then it is the exception of the
    first such iteration, all earlier ones having returned: no model is
    returned once a ring has failed. *)
Theorem main_first_error (qa_tos_rad : string -> string) (args : Args F)
    (e : exn) :
  main qa_tos_rad args = Raise e <->
  exists j, (Z.of_nat j < n_rings args)%Z /\ ring args j = Raise e /\
            forall i, (i < j)%nat -> exists r, ring args i = Ok r.
Proof.
  unfold main, range. cbv zeta.
  pose proof (for_rings_first_error args (center_dir qa_tos_rad args)
                (Z.to_nat (n_rings args)) 0
                (add_disk [] (center_dir qa_tos_rad args)
                   (central_diameter args) (resolved_central_flux args)
                   (freq args)) e) as H.
  destruct (for_rings _ _ _ _) as [cl|e'] eqn:E; cbn [bind].
  - split; [discriminate|]. intros (j & Hj & Hr & Hi).
    assert (H' : @Ok (list (Component F)) cl = Raise e);
      [|discriminate].
    apply H. exists j. split; [lia|]. split; [exact Hr|].
    intros i Hi'. apply Hi. lia.
  - split.
    + intros [= ->]. destruct (proj1 H eq_refl) as (j & Hj & Hr & Hi).
      exists j. split; [lia|]. split; [exact Hr|]. intros i Hi'. apply Hi. lia.
    + intros (j & Hj & Hr & Hi). f_equal.
      assert (H' : @Raise (list (Component F)) e' = Raise e);
        [|now injection H'].
      apply H. exists j. split; [lia|]. split; [exact Hr|].
      intros i Hi'. apply Hi. lia.
Qed.

End FirstError.

Lemma main_first_error_witness :
  main (fun s => s) tiny64 = Raise ZeroDivisionError.
Proof.
  apply (proj2 (main_first_error (fun s => s) tiny64 ZeroDivisionError)).
  exists 0%nat. split; [reflexivity|]. split; [reflexivity|].
  intros i Hi. lia.
Defined.

(** ** The tag *)

Lemma contains_append (c : ascii) (s t : string) :
  contains c (String.append s t) = contains c s || contains c t.
Proof.
  induction s as [|a s IH]; cbn; [reflexivity|].
  now rewrite IH, orb_assoc.
Qed.

(** A replaced character is gone, unless the replacement brings it back. *)
Lemma contains_replace_old (old : ascii) (new s : string) :
  contains old new = false -> contains old (replace old new s) = false.
Proof.
  intros Hnew. induction s as [|a s IH]; cbn; [reflexivity|].
  destruct (Ascii.eqb a old) eqn:E.
  - now rewrite contains_append, Hnew, IH.
  - cbn. now rewrite E, IH.
Qed.

(** A character that is absent stays absent, unless the replacement brings
    it in. *)
Lemma contains_replace_other (c old : ascii) (new s : string) :
  contains c new = false -> contains c s = false ->
  contains c (replace old new s) = false.
Proof.
  intros Hnew. induction s as [|a s IH]; cbn; [reflexivity|].
  intros H. apply orb_false_iff in H as [Ha Hs].
  destruct (Ascii.eqb a old).
  - now rewrite contains_append, Hnew, IH.
  - cbn. now rewrite Ha, IH.
Qed.

Lemma string_append_assoc (s t u : string) :
  String.append (String.append s t) u = String.append s (String.append t u).
Proof. induction s as [|a s IH]; cbn; [reflexivity|]. now rewrite IH. Qed.

Lemma replace_append (old : ascii) (new s t : string) :
  replace old new (String.append s t) =
  String.append (replace old new s) (replace old new t).
Proof.
  induction s as [|a s IH]; cbn; [reflexivity|].
  rewrite IH. destruct (Ascii.eqb a old); cbn; [|reflexivity].
  now rewrite string_append_assoc.
Qed.

Lemma tag_append (s t : string) :
  tag (String.append s t) = String.append (tag s) (tag t).
Proof. unfold tag. now rewrite !replace_append. Qed.

Lemma tag_single (c : ascii) : tag (String c "") = tag_token c.
Proof.
  unfold tag, tag_token. cbn.
  destruct (Ascii.eqb c "-") eqn:E1; [reflexivity|]. cbn.
  destruct (Ascii.eqb c "+") eqn:E2; [reflexivity|]. cbn.
  destruct (Ascii.eqb c "d") eqn:E3; [reflexivity|]. cbn.
  destruct (Ascii.eqb c ".") eqn:E4; reflexivity.
Qed.

(** C8 (naming convention).  For every declination string the tag is the
    string in which every ['-'] is replaced by ["m"], every ['+'] by ["p"],
    and every ['d'] and ['.'] is deleted; it contains no ['-'], ['d'] or
    ['.'] (nor ['+']); and for ["-23d00m00.00"] it is ["m2300m0000"], which
    begins with ["m23"]. *)
Theorem naming_convention :
  (forall s, tag s = tag_by_char s) /\
  (forall s, contains "-" (tag s) = false /\
             contains "d" (tag s) = false /\
             contains "." (tag s) = false /\
             contains "+" (tag s) = false) /\
  tag "-23d00m00.00" = "m2300m0000"%string /\
  String.prefix "m23" (tag "-23d00m00.00") = true.
Proof.
  split; [|split; [|split; reflexivity]].
  - induction s as [|c s IH]; [reflexivity|].
    change (String c s) with (String.append (String c "") s).
    rewrite tag_append, tag_single, IH. reflexivity.
  - intros s. unfold tag. repeat split.
    + apply contains_replace_other; [reflexivity|].
      apply contains_replace_other; [reflexivity|].
      apply contains_replace_other; [reflexivity|].
      apply contains_replace_old; reflexivity.
    + apply contains_replace_other; [reflexivity|].
      apply contains_replace_old; reflexivity.
    + apply contains_replace_old; reflexivity.
    + apply contains_replace_other; [reflexivity|].
      apply contains_replace_other; [reflexivity|].
      apply contains_replace_old; reflexivity.
Qed.

(** ** Whitespace: [strip] and [re.split] *)

Lemma lstrip_head (s : pystr) :
  lstrip s = [] \/ exists c t, lstrip s = c :: t /\ isspace c = false.
Proof.
  induction s as [|c s IH]; cbn; [now left|].
  destruct (isspace c) eqn:E; [exact IH|]. right. now exists c, s.
Qed.

Lemma lstrip_all_space (w s : pystr) :
  all_space w = true -> lstrip (w ++ s) = lstrip s.
Proof.
  induction w as [|c w IH]; cbn; [reflexivity|].
  intros H. apply andb_true_iff in H as [Hc Hw]. rewrite Hc. now apply IH.
Qed.

Lemma lstrip_snoc (s : pystr) (c : N) :
  isspace c = false -> lstrip (s ++ [c]) = (lstrip s ++ [c])%list.
Proof.
  intros Hc. induction s as [|a s IH]; cbn; [now rewrite Hc|].
  destruct (isspace a); [exact IH|reflexivity].
Qed.

Lemma lstrip_field (f s : pystr) :
  is_field f = true -> lstrip (f ++ s) = (f ++ s)%list.
Proof.
  destruct f as [|c f]; [discriminate|]. cbn.
  intros H. apply andb_true_iff in H as [Hc _].
  apply negb_true_iff in Hc. now rewrite Hc.
Qed.

Lemma no_space_rev (s : pystr) : no_space (rev s) = no_space s.
Proof.
  unfold no_space. induction s as [|c s IH]; cbn; [reflexivity|].
  rewrite forallb_app, IH. cbn. rewrite andb_true_r. apply andb_comm.
Qed.

Lemma all_space_rev (s : pystr) : all_space (rev s) = all_space s.
Proof.
  unfold all_space. induction s as [|c s IH]; cbn; [reflexivity|].
  rewrite forallb_app, IH. cbn. rewrite andb_true_r. apply andb_comm.
Qed.

Lemma is_field_rev (f : pystr) : is_field f = true -> is_field (rev f) = true.
Proof.
  intros H. destruct f as [|c f]; [discriminate|].
  assert (Hn : no_space (rev (c :: f)) = true) by (rewrite no_space_rev; exact H).
  destruct (rev (c :: f)) eqn:E; [|exact Hn].
  apply (f_equal (@List.length N)) in E. rewrite length_rev in E. discriminate.
Qed.

Lemma ends_nonspace_snoc (s : pystr) (c : N) :
  ends_nonspace (s ++ [c]) = negb (isspace c).
Proof.
  induction s as [|a s IH]; [reflexivity|].
  cbn [app ends_nonspace]. destruct (s ++ [c])%list eqn:E; [|exact IH].
  destruct s; discriminate.
Qed.

(** What [strip] returns starts and ends with a character that is not
    whitespace, when it is not empty. *)
Lemma strip_trimmed (s : pystr) :
  ends_nonspace (strip s) = true /\
  (strip s = [] \/ exists c t, strip s = c :: t /\ isspace c = false).
Proof.
  unfold strip, rstrip. split.
  - destruct (lstrip_head (rev (lstrip s))) as [E|(c & t & E & Hc)];
      rewrite E; [reflexivity|].
    cbn. rewrite ends_nonspace_snoc, Hc. reflexivity.
  - destruct (lstrip_head s) as [E|(c & t & E & Hc)]; rewrite E; [now left|].
    right. exists c. cbn [rev]. rewrite (lstrip_snoc _ _ Hc), rev_app_distr.
    cbn. eexists. split; [reflexivity|exact Hc].
Qed.

Lemma split_ws_nonempty (b : bool) (s : pystr) : split_ws b s <> [].
Proof.
  revert b. induction s as [|c s IH]; intros b; cbn; [discriminate|].
  destruct (isspace c); [destruct b; [apply IH|discriminate]|].
  destruct (split_ws false s); discriminate.
Qed.

Lemma split_ws_no_space (s : pystr) :
  forall b, Forall (fun p => no_space p = true) (split_ws b s).
Proof.
  induction s as [|c s IH]; intros b; cbn; [repeat constructor|].
  destruct (isspace c) eqn:E.
  - destruct b; [apply IH|]. constructor; [reflexivity|apply IH].
  - specialize (IH false). destruct (split_ws false s) as [|p ps].
    + repeat constructor. cbn. now rewrite E.
    + inversion IH; subst. constructor; [|assumption].
      cbn. rewrite E. assumption.
Qed.

Lemma split_ws_head (s : pystr) :
  s <> [] -> ends_nonspace s = true ->
  exists p ps, split_ws true s = p :: ps /\ p <> [].
Proof.
  induction s as [|c s IH]; intros Hne He; [contradiction|].
  cbn [split_ws]. destruct (isspace c) eqn:E.
  - destruct s as [|a s]; [cbn in He; rewrite E in He; discriminate|].
    apply IH; [discriminate|exact He].
  - destruct (split_ws false s) as [|p ps]; eexists; eexists;
      (split; [reflexivity|discriminate]).
Qed.

Lemma split_ws_tail (s : pystr) :
  ends_nonspace s = true ->
  forall b, Forall (fun p => p <> []) (tl (split_ws b s)).
Proof.
  induction s as [|c s IH]; intros He b; [constructor|].
  assert (He' : ends_nonspace s = true) by (destruct s; [reflexivity|exact He]).
  cbn [split_ws]. destruct (isspace c) eqn:E.
  - destruct s as [|a s]; [cbn in He; rewrite E in He; discriminate|].
    destruct b; [apply IH; exact He'|]. cbn [tl].
    destruct (split_ws_head (a :: s)) as (p & ps & Hs & Hp);
      [discriminate|exact He'|].
    specialize (IH He' true). rewrite Hs in *. constructor; assumption.
  - specialize (IH He' false).
    destruct (split_ws false s) as [|p ps]; [constructor|exact IH].
Qed.

(** The pieces of a stripped, non-empty line are fields. *)
Lemma re_split_strip_fields (L : pystr) :
  strip L <> [] -> Forall (fun p => is_field p = true) (re_split (strip L)).
Proof.
  intros Hne. destruct (strip_trimmed L) as [He [E|(c & t & E & Hc)]];
    [contradiction|].
  pose proof (split_ws_no_space (strip L) false) as Hns.
  pose proof (split_ws_tail (strip L) He false) as Htl.
  unfold re_split. rewrite E in *. cbn [split_ws] in *. rewrite Hc in *.
  destruct (split_ws false t) as [|p ps].
  - repeat constructor. inversion Hns; assumption.
  - inversion Hns; subst. constructor; [assumption|].
    cbn [tl] in Htl. clear - Htl H2.
    induction ps as [|q ps IH]; [constructor|].
    inversion Htl; inversion H2; subst. constructor; [|now apply IH].
    destruct q; [contradiction|assumption].
Qed.

Lemma split_ws_nonspace (c : N) (s : pystr) (b : bool) :
  isspace c = false ->
  split_ws b (c :: s) =
  match split_ws false s with
  | p :: ps => (c :: p) :: ps
  | [] => [[c]]
  end.
Proof. intros Hc. cbn. now rewrite Hc. Qed.

Lemma split_ws_field (f : pystr) :
  is_field f = true ->
  forall b s p ps, split_ws false s = p :: ps ->
                   split_ws b (f ++ s) = (f ++ p)%list :: ps.
Proof.
  destruct f as [|c f]; [discriminate|]. revert c.
  induction f as [|a f IH]; intros c Hf b s p ps Hs.
  - cbn in Hf. rewrite andb_true_r in Hf. apply negb_true_iff in Hf.
    cbn [app]. now rewrite (split_ws_nonspace c s b Hf), Hs.
  - cbn in Hf. apply andb_true_iff in Hf as [Hc Hf].
    apply negb_true_iff in Hc.
    change ((c :: a :: f) ++ s)%list with (c :: ((a :: f) ++ s))%list.
    rewrite (split_ws_nonspace c _ b Hc).
    now rewrite (IH a Hf false s p ps Hs).
Qed.

Lemma split_ws_skip (w s : pystr) :
  all_space w = true -> split_ws true (w ++ s) = split_ws true s.
Proof.
  induction w as [|c w IH]; cbn; [reflexivity|].
  intros H. apply andb_true_iff in H as [Hc Hw]. rewrite Hc. now apply IH.
Qed.

Lemma split_ws_sep (w s : pystr) :
  is_sep w = true -> split_ws false (w ++ s) = [] :: split_ws true s.
Proof.
  destruct w as [|c w]; [discriminate|]. cbn.
  intros H. apply andb_true_iff in H as [Hc Hw]. rewrite Hc.
  now rewrite (split_ws_skip _ _ Hw).
Qed.

(** Splitting a text made of fields and separators gives back the fields. *)
Lemma split_join (rest : list (pystr * pystr)) :
  forall f b, well_formed f rest ->
              split_ws b (join_fields f rest) = f :: map snd rest.
Proof.
  induction rest as [|[w g] rest IH]; intros f b [Hf Hrest].
  - cbn. rewrite <- (app_nil_r f) at 1.
    rewrite (split_ws_field f Hf b [] [] []); [|reflexivity].
    now rewrite app_nil_r.
  - inversion Hrest as [|? ? [Hw Hg] Hrest']; subst. cbn in Hw, Hg.
    cbn [join_fields map snd].
    rewrite (split_ws_field f Hf b _ [] (g :: map snd rest)).
    + now rewrite app_nil_r.
    + rewrite (split_ws_sep _ _ Hw).
      rewrite (IH g true); [reflexivity|now split].
Qed.

Lemma join_fields_head (f : pystr) (rest : list (pystr * pystr)) :
  exists t, join_fields f rest = (f ++ t)%list.
Proof.
  destruct rest as [|[w g] rest]; cbn.
  - exists []. now rewrite app_nil_r.
  - eexists. reflexivity.
Qed.

Lemma join_fields_rev (rest : list (pystr * pystr)) :
  forall f t, well_formed f rest ->
              lstrip (rev (join_fields f rest) ++ t) =
              (rev (join_fields f rest) ++ t)%list.
Proof.
  induction rest as [|[w g] rest IH]; intros f t [Hf Hrest].
  - cbn. apply lstrip_field. now apply is_field_rev.
  - inversion Hrest as [|? ? [Hw Hg] Hrest']; subst. cbn in Hg.
    cbn [join_fields]. rewrite !rev_app_distr, <- !app_assoc.
    apply IH. now split.
Qed.

(** Stripping a padded text made of fields and separators removes the
    padding and nothing else. *)
Lemma strip_join (f : pystr) (rest : list (pystr * pystr)) (l r : pystr) :
  well_formed f rest -> all_space l = true -> all_space r = true ->
  strip (l ++ join_fields f rest ++ r) = join_fields f rest.
Proof.
  intros Hwf Hl Hr. unfold strip, rstrip.
  rewrite (lstrip_all_space _ _ Hl).
  destruct (join_fields_head f rest) as [t Ht].
  assert (E : lstrip (join_fields f rest ++ r) = (join_fields f rest ++ r)%list).
  { rewrite Ht, <- app_assoc. apply lstrip_field. apply Hwf. }
  rewrite E, rev_app_distr.
  rewrite lstrip_all_space by (now rewrite all_space_rev).
  rewrite <- (app_nil_r (rev (join_fields f rest))).
  rewrite (join_fields_rev rest f [] Hwf), app_nil_r. apply rev_involutive.
Qed.

Lemma startswith_hash_join (f : pystr) (rest : list (pystr * pystr)) :
  is_field f = true ->
  startswith_hash (join_fields f rest) = startswith_hash f.
Proof.
  intros Hf. destruct (join_fields_head f rest) as [t ->].
  destruct f; [discriminate|reflexivity].
Qed.

Section CfgFacts.

Variable float : Type.
Variable py_float : pystr -> option float.

(** The loop body on a padded line made of fields and separators. *)
Lemma line_row_join (f : pystr) (rest : list (pystr * pystr)) (l r : pystr) :
  well_formed f rest -> all_space l = true -> all_space r = true ->
  startswith_hash f = false ->
  line_row float py_float (l ++ join_fields f rest ++ r) =
  match f :: map snd rest with
  | [x; y; z; diam; name] =>
      match make_row float py_float name x y with
      | Got row => Got (Some row)
      | Raised e => Raised e
      end
  | [name; x; y; z] =>
      match make_row float py_float name x y with
      | Got row => Got (Some row)
      | Raised e => Raised e
      end
  | _ => Got None
  end.
Proof.
  intros Hwf Hl Hr Hh. unfold line_row. cbv zeta.
  rewrite (strip_join f rest l r Hwf Hl Hr).
  rewrite (startswith_hash_join f rest (proj1 Hwf)), Hh.
  unfold re_split. rewrite (split_join rest f false Hwf).
  destruct (join_fields_head f rest) as [t Ht].
  destruct (join_fields f rest) eqn:E; [|reflexivity].
  destruct f; [destruct Hwf; discriminate|discriminate].
Qed.

End CfgFacts.

(** ** [parse_cfg] *)

Section CfgProperties.

Variable float : Type.
Variable py_float : pystr -> option float.

Lemma for_lines_acc (lines : list pystr) :
  forall acc : list (Row float),
    for_lines float py_float lines acc =
    match for_lines float py_float lines [] with
    | Got rs => Got (acc ++ rs)%list
    | Raised e => Raised e
    end.
Proof.
  induction lines as [|L lines IH]; intros acc; cbn.
  - now rewrite app_nil_r.
  - destruct (line_row float py_float L) as [[r|]|e]; [|apply IH|reflexivity].
    rewrite (IH (acc ++ [r])%list), (IH [r]).
    destruct (for_lines float py_float lines []); [|reflexivity].
    now rewrite <- app_assoc.
Qed.

Lemma parse_cfg_cons (L : pystr) (lines : list pystr) :
  parse_cfg float py_float (L :: lines) =
  match line_row float py_float L with
  | Raised e => Raised e
  | Got o =>
      match parse_cfg float py_float lines with
      | Raised e => Raised e
      | Got rs => Got match o with Some r => r :: rs | None => rs end
      end
  end.
Proof.
  unfold parse_cfg. cbn.
  destruct (line_row float py_float L) as [[r|]|e]; [| |reflexivity].
  - rewrite for_lines_acc.
    now destruct (for_lines float py_float lines []).
  - now destruct (for_lines float py_float lines []).
Qed.

(** X1.  Reading the lines [l1 ++ l2] is reading [l1], then [l2]: the rows
    come in file order, and a [ValueError] in [l1] wins over anything in
    [l2]. *)
Theorem parse_cfg_app (l1 l2 : list pystr) :
  parse_cfg float py_float (l1 ++ l2) =
  match parse_cfg float py_float l1 with
  | Raised e => Raised e
  | Got r1 =>
      match parse_cfg float py_float l2 with
      | Raised e => Raised e
      | Got r2 => Got (r1 ++ r2)%list
      end
  end.
Proof.
  induction l1 as [|L l1 IH].
  - cbn [app]. change (parse_cfg float py_float []) with (@Got (list (Row float)) []).
    now destruct (parse_cfg float py_float l2).
  - cbn [app]. rewrite !parse_cfg_cons, IH.
    destruct (line_row float py_float L) as [o|e]; [|reflexivity].
    destruct (parse_cfg float py_float l1) as [r1|e]; [|reflexivity].
    destruct (parse_cfg float py_float l2) as [r2|e]; [|reflexivity].
    now destruct o.
Qed.

Lemma line_row_ignored (L : pystr) :
  ignored L = true -> line_row float py_float L = Got None.
Proof.
  unfold ignored, line_row. cbv zeta.
  destruct (strip L) as [|c t]; [reflexivity|].
  cbn. now intros ->.
Qed.

(** X2.  Blank lines and lines whose first non-blank character is [#] never
    contribute: deleting them all from the file changes neither the rows
    nor the error. *)
Theorem parse_cfg_ignores_comments (lines : list pystr) :
  parse_cfg float py_float lines =
  parse_cfg float py_float (filter (fun L => negb (ignored L)) lines).
Proof.
  induction lines as [|L lines IH]; [reflexivity|].
  cbn [filter]. destruct (ignored L) eqn:E; cbn [negb].
  - rewrite parse_cfg_cons, (line_row_ignored L E), <- IH.
    now destruct (parse_cfg float py_float lines).
  - rewrite !parse_cfg_cons, <- IH. reflexivity.
Qed.

(** X3.  A line of five fields [x y z diam name], separated by any
    non-empty runs of whitespace and padded by any whitespace, gives the row
    named by the fifth field with [x], [y] the numbers of the first two;
    [z] and [diam] are never converted, so they need not be numbers. *)
Theorem line_of_five_fields (x y z diam name w1 w2 w3 w4 l r : pystr)
    (fx fy : float) :
  well_formed x [(w1, y); (w2, z); (w3, diam); (w4, name)] ->
  all_space l = true -> all_space r = true ->
  startswith_hash x = false ->
  py_float x = Some fx -> py_float y = Some fy ->
  line_row float py_float
    (l ++ x ++ w1 ++ y ++ w2 ++ z ++ w3 ++ diam ++ w4 ++ name ++ r) =
  Got (Some (mkRow name fx fy)).
Proof.
  intros Hwf Hl Hr Hh Hx Hy.
  pose proof (line_row_join float py_float _ _ l r Hwf Hl Hr Hh) as H.
  cbn [join_fields map snd] in H. rewrite <- !app_assoc in H. rewrite H.
  unfold make_row. now rewrite Hx, Hy.
Qed.

(** X4.  A line of four fields [name x y z] gives the row named by the
    first field with [x], [y] the numbers of the second and third; [z] is
    never converted. *)
Theorem line_of_four_fields (name x y z w1 w2 w3 l r : pystr) (fx fy : float) :
  well_formed name [(w1, x); (w2, y); (w3, z)] ->
  all_space l = true -> all_space r = true ->
  startswith_hash name = false ->
  py_float x = Some fx -> py_float y = Some fy ->
  line_row float py_float (l ++ name ++ w1 ++ x ++ w2 ++ y ++ w3 ++ z ++ r) =
  Got (Some (mkRow name fx fy)).
Proof.
  intros Hwf Hl Hr Hh Hx Hy.
  pose proof (line_row_join float py_float _ _ l r Hwf Hl Hr Hh) as H.
  cbn [join_fields map snd] in H. rewrite <- !app_assoc in H. rewrite H.
  unfold make_row. now rewrite Hx, Hy.
Qed.

(** X5.  A line with any other number of fields than four or five is
    skipped without an error, whatever its fields are. *)
Theorem line_of_other_length (f : pystr) (rest : list (pystr * pystr))
    (l r : pystr) :
  well_formed f rest -> all_space l = true -> all_space r = true ->
  List.length rest <> 3%nat -> List.length rest <> 4%nat ->
  line_row float py_float (l ++ join_fields f rest ++ r) = Got None.
Proof.
  intros Hwf Hl Hr H3 H4.
  destruct (startswith_hash f) eqn:Hh.
  - apply line_row_ignored. unfold ignored.
    rewrite (strip_join f rest l r Hwf Hl Hr).
    pose proof (startswith_hash_join f rest (proj1 Hwf)) as E.
    rewrite Hh in E. unfold startswith_hash in E.
    destruct (join_fields f rest); [reflexivity|exact E].
  - rewrite (line_row_join float py_float _ _ l r Hwf Hl Hr Hh).
    destruct rest as [|a [|b [|c [|d [|e [|g rest]]]]]]; cbn in *;
      try reflexivity; contradiction.
Qed.

End CfgProperties.

Lemma line_of_five_fields_witness :
  line_row N digits_float (pys "  10  20 n/a   12m A001 ") =
  Got (Some (mkRow (pys "A001") 10%N 20%N)).
Proof.
  apply (line_of_five_fields N digits_float (pys "10") (pys "20") (pys "n/a")
           (pys "12m") (pys "A001") (pys "  ") (pys " ") (pys "   ") (pys " ")
           (pys "  ") (pys " ") 10%N 20%N);
    first [reflexivity | split; [reflexivity | repeat constructor]].
Defined.

Lemma line_of_four_fields_witness :
  line_row N digits_float (pys "A001 10 20 -3.5") =
  Got (Some (mkRow (pys "A001") 10%N 20%N)).
Proof.
  apply (line_of_four_fields N digits_float (pys "A001") (pys "10") (pys "20")
           (pys "-3.5") (pys " ") (pys " ") (pys " ") [] [] 10%N 20%N);
    first [reflexivity | split; [reflexivity | repeat constructor]].
Defined.

Lemma line_of_other_length_witness :
  line_row N digits_float (pys " A001 ten twenty ") = Got None.
Proof.
  apply (line_of_other_length N digits_float (pys "A001")
           [(pys " ", pys "ten"); (pys " ", pys "twenty")] (pys " ") (pys " "));
    first [reflexivity | discriminate
          | split; [reflexivity | repeat constructor]].
Defined.

Section CfgInvariants.

Variable float : Type.
Variable py_float : pystr -> option float.

Lemma make_row_name (name x y : pystr) (row : Row float) :
  make_row float py_float name x y = Got row -> row_name row = name.
Proof.
  unfold make_row. destruct (py_float x); [|discriminate].
  destruct (py_float y); [|discriminate]. now intros [= <-].
Qed.

Lemma make_row_raised (name x y t : pystr) :
  make_row float py_float name x y = Raised (ValueError t) ->
  py_float t = None /\ (t = x \/ t = y).
Proof.
  unfold make_row. destruct (py_float x) eqn:Ex.
  - destruct (py_float y) eqn:Ey; [discriminate|].
    intros [= <-]. auto.
  - intros [= <-]. auto.
Qed.

(** What the loop body can do on a line that is not skipped at once: the
    pieces of the stripped line decide. *)
Lemma line_row_cases (L : pystr) :
  line_row float py_float L = Got None \/
  exists name x y,
    In name (re_split (strip L)) /\ In x (re_split (strip L)) /\
    In y (re_split (strip L)) /\ strip L <> [] /\
    line_row float py_float L =
    match make_row float py_float name x y with
    | Got row => Got (Some row)
    | Raised e => Raised e
    end.
Proof.
  unfold line_row. cbv zeta. destruct (strip L) as [|c t] eqn:E; [now left|].
  destruct (startswith_hash (c :: t)); [now left|].
  destruct (re_split (c :: t)) as [|p1 [|p2 [|p3 [|p4 [|p5 [|p6 ps]]]]]];
    try (now left).
  - right. exists p1, p2, p3. cbn. intuition discriminate.
  - right. exists p5, p1, p2. cbn. intuition discriminate.
Qed.

Lemma line_row_name (L : pystr) (row : Row float) :
  line_row float py_float L = Got (Some row) ->
  is_field (row_name row) = true.
Proof.
  intros H. destruct (line_row_cases L) as [E|(name & x & y & Hn & _ & _ & Hne & E)];
    [congruence|].
  rewrite E in H.
  destruct (make_row float py_float name x y) as [r|e] eqn:Em; [|discriminate].
  injection H as <-. rewrite (make_row_name _ _ _ _ Em).
  pose proof (re_split_strip_fields L Hne) as HF.
  rewrite Forall_forall in HF. now apply HF.
Qed.

(** X6.  Every row [parse_cfg] returns has a name that is not empty and
    contains no whitespace. *)
Theorem parse_cfg_names (lines : list pystr) (rows : list (Row float)) :
  parse_cfg float py_float lines = Got rows ->
  Forall (fun row => row_name row <> [] /\ no_space (row_name row) = true) rows.
Proof.
  revert rows. induction lines as [|L lines IH]; intros rows.
  - intros [= <-]. constructor.
  - rewrite parse_cfg_cons.
    destruct (line_row float py_float L) as [o|e] eqn:EL; [|discriminate].
    destruct (parse_cfg float py_float lines) as [rs|e]; [|discriminate].
    intros [= <-]. specialize (IH rs eq_refl).
    destruct o as [r|]; [|exact IH]. constructor; [|exact IH].
    pose proof (line_row_name L r EL) as Hf.
    destruct (row_name r); [discriminate|]. split; [discriminate|exact Hf].
Qed.

(** X7.  [parse_cfg] raises exactly when some line does, and then with the
    error of the first such line, the lines before it having been read; the
    text in the [ValueError] is a piece of that line, in the place of [x] or
    [y], that [float] refuses. *)
Theorem parse_cfg_first_error (lines : list pystr) (t : pystr) :
  (parse_cfg float py_float lines = Raised (ValueError t) <->
   exists l1 L l2 rows,
     lines = (l1 ++ L :: l2)%list /\
     parse_cfg float py_float l1 = Got rows /\
     line_row float py_float L = Raised (ValueError t)) /\
  (forall L, line_row float py_float L = Raised (ValueError t) ->
             py_float t = None /\ In t (re_split (strip L)) /\
             ignored L = false).
Proof.
  split.
  - split.
    + induction lines as [|L lines IH]; [discriminate|].
      rewrite parse_cfg_cons.
      destruct (line_row float py_float L) as [o|e] eqn:EL.
      * destruct (parse_cfg float py_float lines) as [rs|e] eqn:EP;
          [discriminate|].
        intros [= ->]. destruct (IH eq_refl) as (l1 & L' & l2 & rows & -> & H1 & H2).
        exists (L :: l1), L', l2. eexists. split; [reflexivity|].
        split; [|exact H2]. rewrite parse_cfg_cons, EL, H1. reflexivity.
      * intros [= ->]. exists [], L, lines, []. auto.
    + intros (l1 & L & l2 & rows & -> & H1 & H2).
      rewrite parse_cfg_app, H1, parse_cfg_cons, H2. reflexivity.
  - intros L H.
    destruct (line_row_cases L) as [E|(name & x & y & _ & Hx & Hy & Hne & E)];
      [congruence|].
    rewrite E in H.
    destruct (make_row float py_float name x y) as [r|e] eqn:Em; [discriminate|].
    injection H as ->. destruct (make_row_raised _ _ _ _ Em) as [Hf [->| ->]].
    + repeat split; try assumption.
      destruct (ignored L) eqn:Ei; [|reflexivity].
      rewrite (line_row_ignored float py_float L Ei) in E. discriminate.
    + repeat split; try assumption.
      destruct (ignored L) eqn:Ei; [|reflexivity].
      rewrite (line_row_ignored float py_float L Ei) in E. discriminate.
Qed.

(** X18.  [parse_cfg] returns at most one row per line that is neither blank
    nor a comment, so never more rows than the file has lines. *)
Theorem parse_cfg_row_count (lines : list pystr) (rows : list (Row float)) :
  parse_cfg float py_float lines = Got rows ->
  (List.length rows
   <= List.length (filter (fun L => negb (ignored L)) lines)
   <= List.length lines)%nat.
Proof.
  intros H. split; [|apply filter_length_le].
  revert rows H. induction lines as [|L lines IH]; intros rows.
  - intros [= <-]. cbn. lia.
  - rewrite parse_cfg_cons.
    destruct (line_row float py_float L) as [o|e] eqn:EL; [|discriminate].
    destruct (parse_cfg float py_float lines) as [rs|e]; [|discriminate].
    intros [= <-]. specialize (IH rs eq_refl). cbn [filter].
    destruct (ignored L) eqn:Ei; cbn [negb].
    + rewrite (line_row_ignored float py_float L Ei) in EL.
      injection EL as <-. exact IH.
    + destruct o; cbn [List.length]; lia.
Qed.

End CfgInvariants.

Lemma parse_cfg_row_count_witness :
  (2 <= 3 <= 5)%nat.
Proof.
  apply (parse_cfg_row_count N digits_float
           [pys "# pads"; pys "A001 10 20 30"; pys ""; pys " 1 2 3 4 B7 ";
            pys "only three fields"]
           [mkRow (pys "A001") 10%N 20%N; mkRow (pys "B7") 1%N 2%N]).
  reflexivity.
Defined.

Lemma parse_cfg_names_witness :
  Forall (fun row : Row N =>
            row_name row <> [] /\ no_space (row_name row) = true)
         [mkRow (pys "A001") 10%N 20%N; mkRow (pys "B7") 1%N 2%N].
Proof.
  apply (parse_cfg_names N digits_float
           [pys "# pads"; pys "A001 10 20 30"; pys ""; pys " 1 2 3 4 B7 "]).
  reflexivity.
Defined.

Lemma parse_cfg_first_error_witness :
  exists l1 L l2 rows,
    [pys "A001 10 20 30"; pys "A002 1x 20 30"; pys "A003 zz 1 1"] =
      (l1 ++ L :: l2)%list /\
    parse_cfg N digits_float l1 = Got rows /\
    line_row N digits_float L = Raised (ValueError (pys "1x")).
Proof.
  apply (proj1 (proj1 (parse_cfg_first_error N digits_float
                         [pys "A001 10 20 30"; pys "A002 1x 20 30";
                          pys "A003 zz 1 1"] (pys "1x")))).
  reflexivity.
Defined.

(** ** More on the tag *)

Lemma replace_absent (old : ascii) (new s : string) :
  contains old s = false -> replace old new s = s.
Proof.
  induction s as [|a s IH]; cbn; [reflexivity|].
  intros H. apply orb_false_iff in H as [Ha Hs].
  now rewrite Ha, IH.
Qed.

Lemma tag_clean (s : string) :
  contains "-" (tag s) = false /\ contains "+" (tag s) = false /\
  contains "d" (tag s) = false /\ contains "." (tag s) = false.
Proof.
  unfold tag. repeat split.
  - do 3 (apply contains_replace_other; [reflexivity|]).
    apply contains_replace_old; reflexivity.
  - do 2 (apply contains_replace_other; [reflexivity|]).
    apply contains_replace_old; reflexivity.
  - apply contains_replace_other; [reflexivity|].
    apply contains_replace_old; reflexivity.
  - apply contains_replace_old; reflexivity.
Qed.

(** X15.  The tag of a text is the text itself exactly when the text has
    none of the characters [-], [+], [d], [.]; in particular taking the tag
    twice changes nothing more. *)
Theorem tag_fixed_point (s : string) :
  (tag s = s <->
   contains "-" s = false /\ contains "+" s = false /\
   contains "d" s = false /\ contains "." s = false) /\
  tag (tag s) = tag s.
Proof.
  assert (Hfix : forall t,
             contains "-" t = false /\ contains "+" t = false /\
             contains "d" t = false /\ contains "." t = false ->
             tag t = t).
  { intros t (H1 & H2 & H3 & H4). unfold tag.
    now rewrite (replace_absent _ _ _ H1), (replace_absent _ _ _ H2),
      (replace_absent _ _ _ H3), (replace_absent _ _ _ H4). }
  split; [split|].
  - intros E. rewrite <- E. apply tag_clean.
  - apply Hfix.
  - apply Hfix. apply tag_clean.
Qed.

Lemma tag_fixed_point_witness :
  tag "m2300m0000" = "m2300m0000"%string.
Proof.
  apply (proj2 (proj1 (tag_fixed_point "m2300m0000"))).
  repeat split.
Defined.

Lemma string_length_append (s t : string) :
  String.length (String.append s t) = (String.length s + String.length t)%nat.
Proof. induction s as [|a s IH]; cbn; [reflexivity|]. now rewrite IH. Qed.

(** X16.  The tag is never longer than the declination text, and the image
    name is never longer than [output_base], the four characters of [_dec]
    and the declination text together. *)
Theorem tag_no_longer (F : Type) (args : Args F) :
  (String.length (tag (dec_center args)) <= String.length (dec_center args)
   /\ String.length (imagename args) <=
      String.length (output_base args) + 4 + String.length (dec_center args))%nat.
Proof.
  assert (H : forall s, (String.length (tag s) <= String.length s)%nat).
  { induction s as [|c s IH]; [cbn; lia|].
    change (String c s) with (String.append (String c "") s).
    rewrite tag_append, tag_single, !string_length_append.
    assert (String.length (tag_token c) <= 1)%nat.
    { unfold tag_token.
      destruct (Ascii.eqb c "-"); [cbn; lia|].
      destruct (Ascii.eqb c "+"); [cbn; lia|].
      destruct (Ascii.eqb c "d"); [cbn; lia|].
      destruct (Ascii.eqb c "."); cbn; lia. }
    cbn [String.length]. lia. }
  split; [apply H|].
  unfold imagename. rewrite !string_length_append.
  specialize (H (dec_center args)). cbn [String.length]. lia.
Qed.

(** ** The image grid *)

(** X17.  For an [im_shape] of two positive sizes, the image has four axes
    and the reference pixel lies inside the image on each of them; on the
    two sky axes it is the centre pixel, at [(w - 1) / 2] rounded up. *)
Theorem reference_pixel_inside (w h : Z) :
  (0 < w)%Z -> (0 < h)%Z ->
  exists px py,
    reference_pixel [w; h] = Some [px; py; 0%Z; 0%Z] /\
    image_shape [w; h] = [w; h; 1%Z; 1%Z] /\
    Forall2 (fun p n => (0 <= p < n)%Z) [px; py; 0%Z; 0%Z]
            (image_shape [w; h]) /\
    (w - 1 <= 2 * px <= w)%Z /\ (h - 1 <= 2 * py <= h)%Z.
Proof.
  intros Hw Hh. exists (w / 2)%Z, (h / 2)%Z.
  split; [reflexivity|]. split; [reflexivity|].
  pose proof (Z.div_mod w 2 ltac:(lia)).
  pose proof (Z.mod_pos_bound w 2 ltac:(lia)).
  pose proof (Z.div_mod h 2 ltac:(lia)).
  pose proof (Z.mod_pos_bound h 2 ltac:(lia)).
  split; [|lia].
  unfold image_shape. cbn [app]. repeat constructor; lia.
Qed.

Lemma reference_pixel_inside_witness :
  exists px py,
    reference_pixel [160; 161]%Z = Some [px; py; 0%Z; 0%Z] /\
    image_shape [160; 161]%Z = [160; 161; 1; 1]%Z /\
    Forall2 (fun p n => (0 <= p < n)%Z) [px; py; 0%Z; 0%Z]
            (image_shape [160; 161]%Z) /\
    (160 - 1 <= 2 * px <= 160)%Z /\ (161 - 1 <= 2 * py <= 161)%Z.
Proof.
  apply (reference_pixel_inside 160 161); reflexivity.
Defined.
